(** * NPSMLE: joint price/volatility simulator and simulated log-likelihood

    A shallow embedding of [include/Joint.h] and the properties proved
    about it.

    - A C++ [double] is a primitive binary64 float; the arithmetic
      operators, [sqrt] and [abs] are the IEEE-754 operations of
      [PrimFloat] (round to nearest even, no fused multiply-add).
    - A [double *] is a memory indexed by integers, [array]; a store
      changes one cell.  Distinct pointer arguments are taken to point
      to disjoint storage.
    - An [int] argument is an integer of the 32-bit range.  A loop
      [for (int i = a; i != n; ++i)] with [n < a] never meets its bound:
      it can only be left by a [return] in its body, and its counter
      overflows after the trip at [INT_MAX]; the embedding returns
      [None] for undefined behaviour.  The product [N_sim * M_sim] of
      line 101 is undefined outside the 32-bit range; the index
      expressions [j * M_sim + k] and [(i - 1) * M_sim + k] are taken
      in [Z], as indices of buffers that hold that many cells.
    - [exp], [log] and [pow] (libm), [st_dev] and [max_double]
      (declared in headers that are not part of [Joint.h]) are
      parameters. *)

From Stdlib Require Import ZArith Bool Lia List Floats.
Import ListNotations.

(** ** Binary64 doubles *)

Module Double.

Definition double := float.

(** Conversion [int -> double]; exact for every 32-bit integer. *)
Definition of_int (n : Z) : double :=
  SF2Prim (binary_normalize prec emax n 0 false).

(** [std::isnormal]: neither zero, subnormal, infinite nor NaN. *)
Definition isnormal (x : double) : bool :=
  match classify x with
  | PNormal | NNormal => true
  | _ => false
  end.

(** Zero of either sign, or a subnormal number. *)
Definition zero_or_subnormal (x : double) : bool :=
  match classify x with
  | PZero | NZero | PSubn | NSubn => true
  | _ => false
  end.

(** The macro [M_PI] of <cmath>, 3.14159265358979323846. *)
Definition M_PI : double := 0x1.921fb54442d18p+1%float.

Definition SFis_zero (x : spec_float) : bool :=
  match x with S754_zero _ => true | _ => false end.

Definition SFis_finite (x : spec_float) : bool :=
  match x with S754_zero _ | S754_finite _ _ _ => true | _ => false end.

Definition SFis_nan (x : spec_float) : bool :=
  match x with S754_nan => true | _ => false end.



End Double.

(** ** The program *)

Module NPSMLE.
Import Double.
Local Open Scope float_scope.

(** *** Memory, loops and undefined behaviour *)

(** The storage a [double *] gives access to. *)
Definition array := Z -> double.

(** [a[i] = v]. *)
Definition store (a : array) (i : Z) (v : double) : array :=
  fun k => if (k =? i)%Z then v else a k.

Definition bind {A B} (c : option A) (k : A -> option B) : option B :=
  match c with
  | Some a => k a
  | None => None
  end.

Notation "x <- c ;; k" := (bind c (fun x => k))
  (at level 61, c at next level, right associativity).

(** [n] trips of a loop body, the counter starting at [i]. *)
Fixpoint iterate {T} (n : nat) (i : Z) (body : Z -> T -> option T) (s : T)
  : option T :=
  match n with
  | O => Some s
  | S n' => s' <- body i s ;; iterate n' (i + 1)%Z body s'
  end.

(** The same trips for a body that cannot fail. *)
Fixpoint run {T} (n : nat) (i : Z) (f : Z -> T -> T) (s : T) : T :=
  match n with
  | O => s
  | S n' => run n' (i + 1)%Z f (f i s)
  end.

(** [for (int i = a; i != n; ++i) body]. *)
Definition for_ne {T} (a n : Z) (body : Z -> T -> option T) (s : T)
  : option T :=
  if (n <? a)%Z then None else iterate (Z.to_nat (n - a)) a body s.

(** The range of a 32-bit [int]. *)
Definition INT_MAX : Z := 2147483647.
Definition INT_MIN : Z := -2147483648.

Definition in_int (n : Z) : bool := (INT_MIN <=? n)%Z && (n <=? INT_MAX)%Z.

(** The trips of a loop whose counter runs from 1 to [INT_MAX]. *)
Definition int_trips : nat := Z.to_nat INT_MAX.

Global Opaque int_trips.

(** *** Parameters and external functions *)

(** [struct JointParameters]; only the fields [Joint.h] reads. *)
Record JointParameters := {
  mu_p : double;
  gamma_p : double;
  gamma_v : double;
  mu_v : double;
  beta_v : double;
  sigma_v : double;
  rho_pv : double
}.

(** The functions of <cmath> that have no IEEE-754 definition. *)
Class Libm := {
  exp : double -> double;
  log : double -> double;
  pow : double -> double -> double
}.

(** What [Joint.h] takes from the headers it includes: [st_dev (a, n)],
    the standard deviation of [a[0..n)], and the constant [max_double]. *)
Class Header := {
  st_dev : array -> Z -> double;
  max_double : double
}.

(** *** simulate_joint_process *)

Section Simulator.

(** The seeded engine together with the normal distribution object;
    [normal g] is [distribution(generator)]: the value drawn and the
    state left behind. *)
Variable G : Type.
Variable normal : G -> double * G.

(** The variables the loops of [simulate_joint_process] change: the two
    output arrays, the Wiener increments [W_p], [W_v] declared at
    function scope, and the generator. *)
Record SimState := {
  s_price : array;
  s_volatility : array;
  s_W_p : double;
  s_W_v : double;
  s_generator : G
}.

(** The body of the inner loop, lines 44-53. *)
Definition sim_substep (sentiment : array) (parameters : JointParameters)
    (delta sqrt_delta : double) (i : Z) (st : SimState) : SimState :=
  let price := s_price st in
  let volatility := s_volatility st in
  let (W_v, g1) := normal (s_generator st) in
  let (z, g2) := normal g1 in
  let W_p := sqrt (1.0 - rho_pv parameters * rho_pv parameters) * z
             + rho_pv parameters * W_v in
  let mp := gamma_p parameters * (mu_p parameters - price i) in
  let sp := price i * sqrt (abs (volatility i)) in
  let price := store price i (price i + (mp * delta + W_p * sp * sqrt_delta)) in
  let mv := gamma_v parameters
            * (mu_v parameters + beta_v parameters * abs (sentiment i)
               - volatility i) in
  let sv := sigma_v parameters * sqrt (abs (volatility i)) in
  let volatility :=
    store volatility i (volatility i + (mv * delta + W_v * sv * sqrt_delta)) in
  {| s_price := price; s_volatility := volatility;
     s_W_p := W_p; s_W_v := W_v; s_generator := g2 |}.

(** The body of the outer loop, lines 39-54. *)
Definition sim_obs_step (sentiment : array) (parameters : JointParameters)
    (delta sqrt_delta : double) (M_obs : Z) (i : Z) (st : SimState)
  : option SimState :=
  let volatility := store (s_volatility st) i (s_volatility st (i - 1)%Z) in
  let price := store (s_price st) i (s_price st (i - 1)%Z) in
  for_ne 0 M_obs
    (fun _ st => Some (sim_substep sentiment parameters delta sqrt_delta i st))
    {| s_price := price; s_volatility := volatility;
       s_W_p := s_W_p st; s_W_v := s_W_v st;
       s_generator := s_generator st |}.

(** [W_p0], [W_v0] stand for the unspecified initial contents of the
    two uninitialised locals; [generator] is the engine after seeding. *)
Definition simulate_joint_process (price volatility sentiment : array)
    (parameters : JointParameters) (dt : double) (N_obs M_obs : Z)
    (p0 v0 : double) (W_p0 W_v0 : double) (generator : G)
  : option SimState :=
  let delta := dt / of_int M_obs in
  let sqrt_delta := sqrt delta in
  let volatility := store volatility 0 v0 in
  let price := store price 0 p0 in
  for_ne 1 N_obs (sim_obs_step sentiment parameters delta sqrt_delta M_obs)
    {| s_price := price; s_volatility := volatility;
       s_W_p := W_p0; s_W_v := W_v0; s_generator := generator |}.

End Simulator.

Arguments s_price {G} _ _.
Arguments s_volatility {G} _ _.
Arguments s_W_p {G} _.
Arguments s_W_v {G} _.
Arguments s_generator {G} _.
Arguments sim_substep {G} normal sentiment parameters delta sqrt_delta i st.
Arguments sim_obs_step {G} normal sentiment parameters delta sqrt_delta M_obs i st.
Arguments simulate_joint_process {G} normal price volatility sentiment
  parameters dt N_obs M_obs p0 v0 W_p0 W_v0 generator.

(** Lines 39-40: observation [i] starts from observation [i - 1]. *)
Definition copy_forward {G} (i : Z) (st : SimState G) : SimState G :=
  {| s_price := store (s_price st) i (s_price st (i - 1)%Z);
     s_volatility := store (s_volatility st) i (s_volatility st (i - 1)%Z);
     s_W_p := s_W_p st; s_W_v := s_W_v st;
     s_generator := s_generator st |}.

(** [n] trips of the inner loop of observation [i]. *)
Definition sub_steps {G} (normal : G -> double * G) (sentiment : array)
    (parameters : JointParameters) (delta sqrt_delta : double) (n : nat)
    (i : Z) (st : SimState G) : SimState G :=
  run n 0
    (fun _ a => sim_substep normal sentiment parameters delta sqrt_delta i a)
    st.

(** The generator after [n] draws. *)
Fixpoint skip_draws {G} (normal : G -> double * G) (n : nat) (g : G) : G :=
  match n with
  | O => g
  | S n' => skip_draws normal n' (snd (normal g))
  end.

(** *** simulated_ll_joint *)

(** [struct WrapperSimulatedJoint], the object behind [void *data]:
    every pointer field with the storage it points to. *)
Record WrapperSimulatedJoint := {
  price : array;
  volatility : array;
  interpolated_sentiment : array;
  simulated_price : array;
  simulated_volatility : array;
  random_buffer_price : array;
  random_buffer_volatility : array;
  wiener_price : array;
  wiener_volatility : array;
  N_obs : Z;
  N_sim : Z;
  M_sim : Z;
  dt : double
}.

(** The two Wiener buffers, [W_p] and [W_v] in the source. *)
Record Wiener := { W_p : array; W_v : array }.

(** The two ensemble buffers. *)
Record Ensemble := { ens_price : array; ens_volatility : array }.

(** Two ensembles hold the same member at index [j]. *)
Definition same_at (e1 e2 : Ensemble) (j : Z) : Prop :=
  ens_price e1 j = ens_price e2 j
  /\ ens_volatility e1 j = ens_volatility e2 j.

(** The variables the main loop changes. *)
Record LoopState := {
  ll : double;
  kernel_sum : double;
  ens : Ensemble
}.

Section Evaluator.

Context {libm : Libm} {header : Header}.

(** Lines 62-68. [x[k]] on a vector shorter than [k+1] is undefined. *)
Definition unwrap (x : list double) : option JointParameters :=
  gamma_p <- nth_error x 0 ;;
  mu_p <- nth_error x 1 ;;
  gamma_v <- nth_error x 2 ;;
  mu_v <- nth_error x 3 ;;
  beta_v <- nth_error x 4 ;;
  sigma_v <- nth_error x 5 ;;
  rho_pv <- nth_error x 6 ;;
  Some {| mu_p := mu_p; gamma_p := gamma_p; gamma_v := gamma_v;
          mu_v := mu_v; beta_v := beta_v; sigma_v := sigma_v;
          rho_pv := rho_pv |}.

Definition dimy : Z := 1.
Definition sqrt_pi : double := sqrt (2.0 * M_PI).
Definition undersmooth : double := 0.5.

(** Line 91. *)
Definition h_frac (N_sim : Z) : double :=
  pow (4.0 / of_int dimy + 2.0) (1.0 / (of_int dimy + 4.0))
  * pow (of_int N_sim) ((- (1.0 + undersmooth)) / (of_int dimy + 4.0)).

(** The body of the first loop, lines 103-104. *)
Definition fill_wiener (rho_pv : double) (data : WrapperSimulatedJoint)
    (i : Z) (w : Wiener) : Wiener :=
  let W_v := store (W_v w) i (random_buffer_volatility data i) in
  let W_p := store (W_p w) i
               (sqrt (1.0 - rho_pv * rho_pv) * random_buffer_price data i
                + rho_pv * W_v i) in
  {| W_p := W_p; W_v := W_v |}.

Section Step.

Variable p : JointParameters.
Variable data : WrapperSimulatedJoint.
Variable w : Wiener.
Variable delta sqrt_delta : double.

(** The body of the [k] loop, lines 117-122. *)
Definition ll_substep (i j k : Z) (e : Ensemble) : Ensemble :=
  let simulated_price := ens_price e in
  let simulated_volatility := ens_volatility e in
  let mp := gamma_p p * (mu_p p - simulated_price j) in
  let sqrt_vol := simulated_price j * sqrt (abs (simulated_volatility j)) in
  let simulated_price :=
    store simulated_price j
      (simulated_price j
       + (mp * delta + W_p w (j * M_sim data + k)%Z * sqrt_vol * sqrt_delta)) in
  let mv := gamma_v p
            * (mu_v p
               + beta_v p
                 * abs (interpolated_sentiment data ((i - 1) * M_sim data + k)%Z)
               - simulated_volatility j) in
  let simulated_volatility :=
    store simulated_volatility j
      (simulated_volatility j
       + (mv * delta
          + W_v w (j * M_sim data + k)%Z * sqrt_vol * sigma_v p * sqrt_delta)) in
  {| ens_price := simulated_price; ens_volatility := simulated_volatility |}.

(** The body of the [j] loop, lines 112-123. *)
Definition ll_member (i j : Z) (e : Ensemble) : option Ensemble :=
  let simulated_price := store (ens_price e) j (price data (i - 1)%Z) in
  let simulated_volatility :=
    store (ens_volatility e) j (volatility data (i - 1)%Z) in
  for_ne 0 (M_sim data) (fun k e => Some (ll_substep i j k e))
    {| ens_price := simulated_price; ens_volatility := simulated_volatility |}.

(** The [k] loop of member [j] when [M_sim] is not negative. *)
Definition member_path (i j : Z) (e : Ensemble) : Ensemble :=
  run (Z.to_nat (M_sim data)) 0 (ll_substep i j) e.

(** The ensemble [e] with member [j] set to the state observed at
    time [i - 1], lines 112-113. *)
Definition reset_member (i j : Z) (e : Ensemble) : Ensemble :=
  {| ens_price := store (ens_price e) j (price data (i - 1)%Z);
     ens_volatility := store (ens_volatility e) j (volatility data (i - 1)%Z) |}.

(** Another pair of Wiener buffers holds the same increments for
    member [j]. *)
Definition wiener_agree (w2 : Wiener) (j : Z) : Prop :=
  forall k, (0 <= k < M_sim data)%Z ->
    W_p w (j * M_sim data + k)%Z = W_p w2 (j * M_sim data + k)%Z
    /\ W_v w (j * M_sim data + k)%Z = W_v w2 (j * M_sim data + k)%Z.

(** One term of the kernel sum, lines 132-134. *)
Definition kernel_term (h_price h_volatility : double) (e : Ensemble)
    (i j : Z) (kernel_sum : double) : double :=
  let kernel_sum_price :=
    exp ((- (ens_price e j - price data i) * (ens_price e j - price data i))
         / (2.0 * h_price * h_price))
    / (h_price * sqrt_pi) in
  let kernel_sum_volatility :=
    exp ((- (ens_volatility e j - volatility data i)
          * (ens_volatility e j - volatility data i))
         / (2.0 * h_volatility * h_volatility))
    / (h_volatility * sqrt_pi) in
  kernel_sum + kernel_sum_volatility * kernel_sum_price.

(** Lines 110-139: one trip of the main loop up to the exit test. *)
Definition ll_obs_step (i : Z) (st : LoopState) : option LoopState :=
  e <- for_ne 0 (N_sim data) (ll_member i) (ens st) ;;
  let h_price := h_frac (N_sim data) * st_dev (ens_price e) (N_sim data) in
  let h_volatility :=
    h_frac (N_sim data) * st_dev (ens_volatility e) (N_sim data) in
  kernel_sum <- for_ne 0 (N_sim data)
                  (fun j ks => Some (kernel_term h_price h_volatility e i j ks))
                  (kernel_sum st) ;;
  let ll := ll st + log (kernel_sum / of_int (N_sim data)) in
  Some {| ll := ll; kernel_sum := 0.0; ens := e |}.

(** The test of lines 143, under [#ifdef INFINITY_CHECK]. *)
Definition exit_guard (ll : double) : bool :=
  (ll =? neg_infinity) || negb (isnormal ll).

(** [n] trips of the main loop from counter [i], with the early
    [return max_double] when the macro [INFINITY_CHECK] is defined. *)
Fixpoint main_loop (INFINITY_CHECK : bool) (n : nat) (i : Z) (st : LoopState)
  : option (double * Ensemble) :=
  match n with
  | O => Some (- ll st, ens st)
  | S n' =>
      st' <- ll_obs_step i st ;;
      if INFINITY_CHECK && exit_guard (ll st')
      then Some (max_double, ens st')
      else main_loop INFINITY_CHECK n' (i + 1)%Z st'
  end.

(** The main loop when its counter cannot meet [N_obs]: the only way out
    of the [n] trips is the early [return max_double]; after the last
    trip the counter overflows. *)
Fixpoint runaway_loop (INFINITY_CHECK : bool) (n : nat) (i : Z)
    (st : LoopState) : option (double * Ensemble) :=
  match n with
  | O => None
  | S n' =>
      st' <- ll_obs_step i st ;;
      if INFINITY_CHECK && exit_guard (ll st')
      then Some (max_double, ens st')
      else runaway_loop INFINITY_CHECK n' (i + 1)%Z st'
  end.

End Step.

(** The state on entry to the main loop. *)
Definition initial_state (data : WrapperSimulatedJoint) : LoopState :=
  {| ll := 0.0; kernel_sum := 0.0;
     ens := {| ens_price := simulated_price data;
               ens_volatility := simulated_volatility data |} |}.

(** The object behind [data] once the call has returned. *)
Definition write_back (data : WrapperSimulatedJoint) (w : Wiener)
    (e : Ensemble) : WrapperSimulatedJoint :=
  {| price := price data;
     volatility := volatility data;
     interpolated_sentiment := interpolated_sentiment data;
     simulated_price := ens_price e;
     simulated_volatility := ens_volatility e;
     random_buffer_price := random_buffer_price data;
     random_buffer_volatility := random_buffer_volatility data;
     wiener_price := W_p w;
     wiener_volatility := W_v w;
     N_obs := N_obs data;
     N_sim := N_sim data;
     M_sim := M_sim data;
     dt := dt data |}.

(** Lines 97-105: the Wiener buffers after the first loop, whose bound
    is the [int] product [N_sim * M_sim]. *)
Definition wiener_buffers (p : JointParameters) (data : WrapperSimulatedJoint)
  : option Wiener :=
  if in_int (N_sim data * M_sim data) then
    for_ne 0 (N_sim data * M_sim data)%Z
      (fun i w => Some (fill_wiener (rho_pv p) data i w))
      {| W_p := wiener_price data; W_v := wiener_volatility data |}
  else None.

(** The function; [INFINITY_CHECK] tells whether the macro is defined.
    The result is the value returned and the object behind [data]. *)
Definition simulated_ll_joint (INFINITY_CHECK : bool) (x grad : list double)
    (data : WrapperSimulatedJoint) : option (double * WrapperSimulatedJoint) :=
  p <- unwrap x ;;
  let delta := dt data / of_int (M_sim data) in
  let sqrt_delta := sqrt delta in
  w <- wiener_buffers p data ;;
  r <- (if (N_obs data <? 1)%Z
        then runaway_loop p data w delta sqrt_delta INFINITY_CHECK
               int_trips 1 (initial_state data)
        else main_loop p data w delta sqrt_delta INFINITY_CHECK
               (Z.to_nat (N_obs data - 1)) 1 (initial_state data)) ;;
  Some (fst r, write_back data w (snd r)).

(** The same inputs with other contents in the four scratch buffers. *)
Definition with_scratch (data : WrapperSimulatedJoint)
    (sp sv wp wv : array) : WrapperSimulatedJoint :=
  {| price := price data;
     volatility := volatility data;
     interpolated_sentiment := interpolated_sentiment data;
     simulated_price := sp;
     simulated_volatility := sv;
     random_buffer_price := random_buffer_price data;
     random_buffer_volatility := random_buffer_volatility data;
     wiener_price := wp;
     wiener_volatility := wv;
     N_obs := N_obs data;
     N_sim := N_sim data;
     M_sim := M_sim data;
     dt := dt data |}.

(** The Wiener buffers and the loop state after the first [n] trips of
    the main loop when no trip returns early. *)
Definition run_steps (x : list double) (data : WrapperSimulatedJoint)
    (n : nat) : option (Wiener * LoopState) :=
  p <- unwrap x ;;
  let delta := dt data / of_int (M_sim data) in
  let sqrt_delta := sqrt delta in
  w <- wiener_buffers p data ;;
  st <- iterate n 1 (ll_obs_step p data w delta sqrt_delta)
          (initial_state data) ;;
  Some (w, st).

(** The ensemble in which every member holds the state observed at
    time [i - 1]. *)
Definition observed_ensemble (data : WrapperSimulatedJoint) (i : Z)
  : Ensemble :=
  {| ens_price := fun _ => price data (i - 1)%Z;
     ens_volatility := fun _ => volatility data (i - 1)%Z |}.

End Evaluator.

(** *** Instances to run the functions on *)

(** Sum of [f 0 .. f (n-1)], from the left. *)
Fixpoint fsum (n : nat) (f : Z -> double) : double :=
  match n with
  | O => 0.0
  | S n' => fsum n' f + f (Z.of_nat n')
  end.

(** Population standard deviation of [a[0..n)]. *)
Definition st_dev_population (a : array) (n : Z) : double :=
  let mean := fsum (Z.to_nat n) a / of_int n in
  sqrt (fsum (Z.to_nat n) (fun k => (a k - mean) * (a k - mean)) / of_int n).

(** First-order stand-ins for the libm functions. *)
Definition libm_linear : Libm :=
  {| exp := fun x => 1.0 + x;
     log := fun x => x - 1.0;
     pow := fun x y => 1.0 + y * (x - 1.0) |}.

(** Constant stand-ins: [log] is [0.0] everywhere. *)
Definition libm_flat : Libm :=
  {| exp := fun _ => 1.0;
     log := fun _ => 0.0;
     pow := fun _ _ => 1.0 |}.

Definition header_population : Header :=
  {| st_dev := st_dev_population;
     max_double := 0x1.fffffffffffffp+1023 |}.

(** A generator that replays a list of draws and then yields [0.0]. *)
Definition replay (g : list double) : double * list double :=
  match g with
  | [] => (0.0, [])
  | z :: g' => (z, g')
  end.

(** A generator whose every draw is [0.0]. *)
Definition silent (g : unit) : double * unit := (0.0, g).

(** A generator that alternates between the draws [1.0] and [-0.5]. *)
Definition alternating (g : bool) : double * bool :=
  (if g then 1.0 else -0.5, negb g).

(** An array holding the listed values from index 0, and [0.0] elsewhere. *)
Definition of_list (l : list double) : array :=
  fun k => if (k <? 0)%Z then 0.0 else nth (Z.to_nat k) l 0.0.

Definition constant (v : double) : array := fun _ => v.

End NPSMLE.

(** ** Concrete inputs *)

Module Examples.
Import Double NPSMLE.
Local Open Scope float_scope.

(** A wrapper with the given grid and buffers and empty scratch space. *)
Definition wrapper (price volatility sentiment rb_price rb_volatility : array)
    (N_obs N_sim M_sim : Z) (dt : double) : WrapperSimulatedJoint :=
  {| price := price; volatility := volatility;
     interpolated_sentiment := sentiment;
     simulated_price := constant 0; simulated_volatility := constant 0;
     random_buffer_price := rb_price;
     random_buffer_volatility := rb_volatility;
     wiener_price := constant 0; wiener_volatility := constant 0;
     N_obs := N_obs; N_sim := N_sim; M_sim := M_sim; dt := dt |}.

(** Price 100, volatility 0.25, unit volatility shock, no drift. *)
Definition diffusion_only : JointParameters :=
  {| mu_p := 0; gamma_p := 0; gamma_v := 0; mu_v := 0; beta_v := 0;
     sigma_v := 1; rho_pv := 0 |}.

Definition flat_data : WrapperSimulatedJoint :=
  wrapper (constant 100) (constant 0.25) (constant 0) (constant 0)
    (constant 1) 2 1 1 1.

(** Two members, two sub-steps, uncorrelated shocks. *)
Definition uncorrelated : JointParameters :=
  {| mu_p := 100; gamma_p := 1; gamma_v := 1; mu_v := 0.25; beta_v := 0.5;
     sigma_v := 0.5; rho_pv := 0 |}.

Definition small_data : WrapperSimulatedJoint :=
  wrapper (of_list [100; 101; 99]) (of_list [0.25; 0.5; 0.25])
    (constant 0.5) (of_list [0.5; -0.25; 0.125; 2])
    (of_list [1; -1; 0.5; -0.5]) 3 2 2 1.

(** 0.04 rounded to binary64. *)
Definition v0_scenario : double := 0x1.47ae147ae147bp-5.

(** Parameters of the zero-noise scenario with a sentiment-driven
    volatility drift. *)
Definition scenario_parameters : JointParameters :=
  {| mu_p := 100; gamma_p := 1; gamma_v := 1; mu_v := 0; beta_v := 1;
     sigma_v := 1; rho_pv := 0 |}.

(** Sentiment 0 at index 0 and 1 at index 1. *)
Definition scenario_sentiment : array := of_list [0; 1].

(** No volatility dynamics at all. *)
Definition degenerate : JointParameters :=
  {| mu_p := 100; gamma_p := 1; gamma_v := 0; mu_v := 0; beta_v := 0;
     sigma_v := 0; rho_pv := 0.5 |}.

(** One ensemble member: its standard deviation is zero, and so are
    both bandwidths. *)
Definition single_member_data : WrapperSimulatedJoint :=
  wrapper (of_list [100; 101; 99]) (of_list [0.25; 0.5; 0.25])
    (constant 0.5) (of_list [0.5; -0.25]) (of_list [1; -1]) 3 1 2 1.

Definition small_x : list double := [1; 100; 1; 0.25; 0.5; 0.5; 0].

(** The Wiener buffers and loop state after the first observation
    step; an untouched state if that step is undefined. *)
Definition after_first_step (libm : Libm) (header : Header)
    (x : list double) (data : WrapperSimulatedJoint) : Wiener * LoopState :=
  match run_steps x data 1 with
  | Some r => r
  | None => ({| W_p := wiener_price data; W_v := wiener_volatility data |},
             initial_state data)
  end.

(** A three-observation path with two sub-steps each. *)
Definition example_path : option (SimState bool) :=
  simulate_joint_process alternating (constant 0) (constant 0)
    (constant 0.5) uncorrelated 1 3 2 100 0.25 0 0 true.

(** The state inside [o], or [d] when there is none. *)
Definition state_of {A} (d : A) (o : option A) : A :=
  match o with
  | Some a => a
  | None => d
  end.

Definition blank_state : SimState bool :=
  {| s_price := constant 0; s_volatility := constant 0; s_W_p := 0;
     s_W_v := 0; s_generator := true |}.

(** The same run with other price parameters, initial price and price
    array. *)
Definition other_price_side : JointParameters :=
  {| mu_p := 50; gamma_p := 2; gamma_v := 1; mu_v := 0.25; beta_v := 0.5;
     sigma_v := 0.5; rho_pv := -0.5 |}.

(** [small_data] with other increments for the second member only. *)
Definition other_second_member : Wiener :=
  {| W_p := of_list [0.5; -0.25; 8; 9];
     W_v := of_list [1; -1; 10; 11] |}.

Definition small_wiener : Wiener :=
  {| W_p := random_buffer_price small_data;
     W_v := random_buffer_volatility small_data |}.

(** [small_data] with a single observation. *)
Definition one_observation : WrapperSimulatedJoint :=
  wrapper (of_list [100]) (of_list [0.25]) (constant 0.5)
    (of_list [0.5; -0.25; 0.125; 2]) (of_list [1; -1; 0.5; -0.5]) 1 2 2 1.

(** [small_data] without sub-steps. *)
Definition no_substeps : WrapperSimulatedJoint :=
  wrapper (of_list [100; 101; 99]) (of_list [0.25; 0.5; 0.25])
    (constant 0.5) (constant 0) (constant 0) 3 2 0 1.

(** Three observations, two members, one sub-step per observation. *)
Definition one_substep : WrapperSimulatedJoint :=
  wrapper (of_list [100; 101; 99]) (of_list [0.25; 0.5; 0.25])
    (constant 0.5) (of_list [0.5; -0.25]) (of_list [1; -1]) 3 2 1 1.

(** The value and the object a call leaves, or the untouched object
    when the call is undefined. *)
Definition outcome (data : WrapperSimulatedJoint)
    (o : option (double * WrapperSimulatedJoint))
  : double * WrapperSimulatedJoint :=
  match o with
  | Some r => r
  | None => (0, data)
  end.

End Examples.

(** ** Facts about binary64 arithmetic *)

Module DoubleFacts.
Import Double.
Local Open Scope float_scope.

(** *** Classification through the specification floats *)

Lemma SFeqb_finite_refl s m e :
  SFeqb (S754_finite s m e) (S754_finite s m e) = true.
Proof.
  unfold SFeqb, SFcompare.
  destruct s; rewrite Z.compare_refl, Pos.compare_cont_refl; reflexivity.
Qed.

Lemma is_zero_spec x : is_zero x = SFis_zero (Prim2SF x).
Proof.
  unfold is_zero. rewrite eqb_spec.
  change (Prim2SF zero) with (S754_zero false).
  destruct (Prim2SF x) as [s|s| |s m e]; try reflexivity; destruct s; reflexivity.
Qed.

Lemma is_nan_spec x : is_nan x = SFis_nan (Prim2SF x).
Proof.
  unfold is_nan. rewrite eqb_spec.
  destruct (Prim2SF x) as [s|s| |s m e]; try reflexivity.
  - destruct s; reflexivity.
  - rewrite SFeqb_finite_refl. reflexivity.
Qed.

Lemma is_finite_spec x : is_finite x = SFis_finite (Prim2SF x).
Proof.
  unfold is_finite, is_nan, is_infinity.
  rewrite !eqb_spec, abs_spec.
  change (Prim2SF infinity) with (S754_infinity false).
  destruct (Prim2SF x) as [s|s| |s m e]; try reflexivity.
  - destruct s; reflexivity.
  - rewrite SFeqb_finite_refl. reflexivity.
Qed.

Lemma isnormal_spec x :
  isnormal x = match SF64classify (Prim2SF x) with
               | PNormal | NNormal => true
               | _ => false
               end.
Proof. unfold isnormal. rewrite classify_spec. reflexivity. Qed.

Lemma zero_or_subnormal_spec x :
  zero_or_subnormal x = match SF64classify (Prim2SF x) with
                        | PZero | NZero | PSubn | NSubn => true
                        | _ => false
                        end.
Proof. unfold zero_or_subnormal. rewrite classify_spec. reflexivity. Qed.

Ltac to_spec :=
  rewrite ?is_zero_spec, ?is_finite_spec, ?is_nan_spec in *;
  rewrite ?mul_spec, ?add_spec, ?sub_spec, ?div_spec, ?sqrt_spec,
    ?abs_spec, ?opp_spec in *.

Ltac spec_cases x :=
  let s := fresh "s" in let m := fresh "m" in let e := fresh "e" in
  destruct (Prim2SF x) as [s|s| |s m e]; try discriminate; try destruct s.

(** *** Arithmetic on zeros *)

Lemma is_zero_is_finite x : is_zero x = true -> is_finite x = true.
Proof. to_spec. spec_cases x; reflexivity. Qed.

Lemma mul_zero_l x y :
  is_zero x = true -> is_finite y = true -> is_zero (x * y) = true.
Proof.
  to_spec. intros Hx Hy. to_spec.
  spec_cases x; spec_cases y; reflexivity.
Qed.

Lemma mul_zero_r x y :
  is_finite x = true -> is_zero y = true -> is_zero (x * y) = true.
Proof.
  to_spec. intros Hx Hy. to_spec.
  spec_cases x; spec_cases y; reflexivity.
Qed.

Lemma add_zero_zero x y :
  is_zero x = true -> is_zero y = true -> is_zero (x + y) = true.
Proof.
  to_spec. intros Hx Hy. to_spec.
  spec_cases x; spec_cases y; reflexivity.
Qed.

Lemma sub_zero_zero x y :
  is_zero x = true -> is_zero y = true -> is_zero (x - y) = true.
Proof.
  to_spec. intros Hx Hy. to_spec.
  spec_cases x; spec_cases y; reflexivity.
Qed.

Lemma abs_is_finite x : is_finite x = true -> is_finite (abs x) = true.
Proof. to_spec. intros Hx. to_spec. spec_cases x; reflexivity. Qed.

Lemma abs_is_zero x : is_zero x = true -> is_zero (abs x) = true.
Proof. to_spec. intros Hx. to_spec. spec_cases x; reflexivity. Qed.

Lemma sqrt_is_zero x : is_zero x = true -> is_zero (sqrt x) = true.
Proof. to_spec. intros Hx. to_spec. spec_cases x; reflexivity. Qed.

Lemma add_zero_r x y :
  is_zero y = true -> is_zero x = false -> (x + y)%float = x.
Proof.
  intros Hy Hx. apply Prim2SF_inj. to_spec.
  destruct (Prim2SF x) as [s|s| |s m e]; try discriminate;
    spec_cases y; reflexivity.
Qed.



Lemma eqb_refl x : is_nan x = false -> (x =? x)%float = true.
Proof. unfold is_nan. intros H. apply negb_false_iff in H. exact H. Qed.



Lemma opp_is_zero x : is_zero (- x) = is_zero x.
Proof. to_spec. spec_cases x; reflexivity. Qed.

(** *** What the exit guard of the evaluator sees *)

Lemma not_finite_not_normal x : is_finite x = false -> isnormal x = false.
Proof.
  rewrite isnormal_spec. to_spec.
  destruct (Prim2SF x) as [s|s| |s m e]; try discriminate;
    try destruct s; reflexivity.
Qed.

Lemma zero_or_subnormal_not_normal x :
  zero_or_subnormal x = true -> isnormal x = false.
Proof.
  rewrite isnormal_spec, zero_or_subnormal_spec.
  destruct (SF64classify (Prim2SF x)); try discriminate; reflexivity.
Qed.

Lemma zero_or_subnormal_is_finite x :
  zero_or_subnormal x = true -> is_finite x = true.
Proof.
  rewrite zero_or_subnormal_spec. to_spec.
  destruct (Prim2SF x) as [s|s| |s m e]; try destruct s;
    try discriminate; reflexivity.
Qed.

Lemma is_zero_zero_or_subnormal x :
  is_zero x = true -> zero_or_subnormal x = true.
Proof.
  rewrite zero_or_subnormal_spec. to_spec. spec_cases x; reflexivity.
Qed.

(** *** Multiplication by one and by minus one is exact *)









(** *** Adding a zero *)



(** *** The correlated mix at the three boundary correlations *)




End DoubleFacts.

(** ** Facts about the loops *)

Module LoopFacts.
Import Double NPSMLE.

Definition opt_rel {A} (R : A -> A -> Prop) (o1 o2 : option A) : Prop :=
  match o1, o2 with
  | Some a, Some b => R a b
  | None, None => True
  | _, _ => False
  end.

Lemma store_same a i v : store a i v i = v.
Proof. unfold store. rewrite Z.eqb_refl. reflexivity. Qed.

Lemma store_other a i v k : k <> i -> store a i v k = a k.
Proof.
  intros H. unfold store. destruct (Z.eqb_spec k i); [contradiction|reflexivity].
Qed.

Lemma for_ne_iterate {T} (a n : Z) (body : Z -> T -> option T) s :
  (a <= n)%Z -> for_ne a n body s = iterate (Z.to_nat (n - a)) a body s.
Proof.
  intros H. unfold for_ne. destruct (Z.ltb_spec n a); [lia|reflexivity].
Qed.

Lemma for_ne_undefined {T} (a n : Z) (body : Z -> T -> option T) s :
  (n < a)%Z -> for_ne a n body s = None.
Proof.
  intros H. unfold for_ne. destruct (Z.ltb_spec n a); [reflexivity|lia].
Qed.

Lemma iterate_total {T} (f : Z -> T -> T) n i s :
  iterate n i (fun k s => Some (f k s)) s = Some (run n i f s).
Proof.
  revert i s. induction n as [|n IH]; intros i s; simpl.
  - reflexivity.
  - apply IH.
Qed.

Lemma for_ne_total {T} (f : Z -> T -> T) a n s :
  (a <= n)%Z ->
  for_ne a n (fun k s => Some (f k s)) s = Some (run (Z.to_nat (n - a)) a f s).
Proof. intros H. rewrite for_ne_iterate by exact H. apply iterate_total. Qed.

(** An invariant indexed by the loop counter. *)
Lemma run_invariant {T} (P : Z -> T -> Prop) (f : Z -> T -> T) n i s :
  P i s ->
  (forall t a, (i <= t < i + Z.of_nat n)%Z -> P t a -> P (t + 1)%Z (f t a)) ->
  P (i + Z.of_nat n)%Z (run n i f s).
Proof.
  revert i s. induction n as [|n IH]; intros i s H0 Hstep.
  - simpl. rewrite Z.add_0_r. exact H0.
  - replace (i + Z.of_nat (S n))%Z with (i + 1 + Z.of_nat n)%Z by lia.
    simpl run.
    apply IH.
    + apply Hstep; [lia|exact H0].
    + intros t a Ht. apply Hstep. lia.
Qed.

Lemma iterate_invariant {T} (P : Z -> T -> Prop) (body : Z -> T -> option T)
    n i s :
  P i s ->
  (forall t a, (i <= t < i + Z.of_nat n)%Z -> P t a ->
     exists b, body t a = Some b /\ P (t + 1)%Z b) ->
  exists s', iterate n i body s = Some s' /\ P (i + Z.of_nat n)%Z s'.
Proof.
  revert i s. induction n as [|n IH]; intros i s H0 Hstep.
  - simpl. exists s. split; [reflexivity|].
    rewrite Z.add_0_r. exact H0.
  - replace (i + Z.of_nat (S n))%Z with (i + 1 + Z.of_nat n)%Z by lia.
    simpl iterate.
    destruct (Hstep i s) as [b [Hb Pb]]; [lia|exact H0|].
    rewrite Hb. simpl bind.
    apply IH; [exact Pb|].
    intros t a Ht. apply Hstep. lia.
Qed.

(** A relation between two runs of loops with the same trip count. *)
Lemma run_related {T} (R : Z -> T -> T -> Prop) (f g : Z -> T -> T) n i s1 s2 :
  R i s1 s2 ->
  (forall t a b, (i <= t < i + Z.of_nat n)%Z -> R t a b ->
     R (t + 1)%Z (f t a) (g t b)) ->
  R (i + Z.of_nat n)%Z (run n i f s1) (run n i g s2).
Proof.
  revert i s1 s2. induction n as [|n IH]; intros i s1 s2 H0 Hstep.
  - simpl. rewrite Z.add_0_r. exact H0.
  - replace (i + Z.of_nat (S n))%Z with (i + 1 + Z.of_nat n)%Z by lia.
    simpl run.
    apply IH.
    + apply Hstep; [lia|exact H0].
    + intros t a b Ht. apply Hstep. lia.
Qed.

Lemma iterate_related {T} (R : Z -> T -> T -> Prop)
    (body1 body2 : Z -> T -> option T) n i s1 s2 :
  R i s1 s2 ->
  (forall t a b, (i <= t < i + Z.of_nat n)%Z -> R t a b ->
     opt_rel (R (t + 1)%Z) (body1 t a) (body2 t b)) ->
  opt_rel (R (i + Z.of_nat n)%Z) (iterate n i body1 s1) (iterate n i body2 s2).
Proof.
  revert i s1 s2. induction n as [|n IH]; intros i s1 s2 H0 Hstep.
  - simpl. rewrite Z.add_0_r. exact H0.
  - replace (i + Z.of_nat (S n))%Z with (i + 1 + Z.of_nat n)%Z by lia.
    simpl iterate.
    pose proof (Hstep i s1 s2 ltac:(lia) H0) as Hb.
    destruct (body1 i s1) as [a|], (body2 i s2) as [b|]; simpl in Hb |- *;
      try contradiction; try exact I.
    apply IH; [exact Hb|].
    intros t a' b' Ht. apply Hstep. lia.
Qed.

End LoopFacts.

(** ** Properties of the simulator and of the evaluator *)

Module Properties.
Import Double NPSMLE DoubleFacts LoopFacts Examples.
Local Open Scope float_scope.

Lemma float_neq (x y : double) : Prim2SF x <> Prim2SF y -> x <> y.
Proof. intros H E. apply H. rewrite E. reflexivity. Qed.

(** *** One sub-step of the two discretisations *)

Lemma sim_substep_volatility {G} (normal : G -> double * G) sentiment p
    delta sqrt_delta i st :
  s_volatility (sim_substep normal sentiment p delta sqrt_delta i st) i
  = s_volatility st i
    + (gamma_v p * (mu_v p + beta_v p * abs (sentiment i) - s_volatility st i)
       * delta
       + fst (normal (s_generator st))
         * (sigma_v p * sqrt (abs (s_volatility st i))) * sqrt_delta).
Proof.
  unfold sim_substep.
  destruct (normal (s_generator st)) as [wv g1].
  destruct (normal g1) as [z g2]. simpl. apply store_same.
Qed.

Lemma sim_substep_price {G} (normal : G -> double * G) sentiment p
    delta sqrt_delta i st :
  s_price (sim_substep normal sentiment p delta sqrt_delta i st) i
  = s_price st i
    + (gamma_p p * (mu_p p - s_price st i) * delta
       + (sqrt (1.0 - rho_pv p * rho_pv p)
          * fst (normal (snd (normal (s_generator st))))
          + rho_pv p * fst (normal (s_generator st)))
         * (s_price st i * sqrt (abs (s_volatility st i))) * sqrt_delta).
Proof.
  unfold sim_substep.
  destruct (normal (s_generator st)) as [wv g1]. simpl.
  destruct (normal g1) as [z g2]. simpl. apply store_same.
Qed.

(** C1 (the code departs from the claim).  With the same state, the same
    innovations and the same sentiment value, one sub-step of the
    evaluator gives the same price as one sub-step of the simulator,
    but not the same volatility: the simulator's diffusion coefficient
    is [sigma_v * sqrt |volatility|], the evaluator's is
    [price * sqrt |volatility| * sigma_v].  With price 100, volatility
    0.25 and a unit shock the simulator yields 0.75, the evaluator
    50.25. *)
Theorem substep_price_agrees_volatility_differs :
  (forall (p : JointParameters) (data : WrapperSimulatedJoint)
          (delta sqrt_delta : double) (i j k : Z) (pr v wv z : double),
     let s := interpolated_sentiment data ((i - 1) * M_sim data + k)%Z in
     let mix := sqrt (1.0 - rho_pv p * rho_pv p) * z + rho_pv p * wv in
     let st := sim_substep replay (constant s) p delta sqrt_delta i
                 {| s_price := constant pr; s_volatility := constant v;
                    s_W_p := 0; s_W_v := 0; s_generator := [wv; z] |} in
     let e := ll_substep p data {| W_p := constant mix; W_v := constant wv |}
                delta sqrt_delta i j k
                {| ens_price := constant pr; ens_volatility := constant v |} in
     s_price st i = ens_price e j
     /\ s_volatility st i
        = v + (gamma_v p * (mu_v p + beta_v p * abs s - v) * delta
               + wv * (sigma_v p * sqrt (abs v)) * sqrt_delta)
     /\ ens_volatility e j
        = v + (gamma_v p * (mu_v p + beta_v p * abs s - v) * delta
               + wv * (pr * sqrt (abs v)) * sigma_v p * sqrt_delta))
  /\ s_volatility
       (sim_substep replay (constant 0) diffusion_only 1 1 1
          {| s_price := constant 100; s_volatility := constant 0.25;
             s_W_p := 0; s_W_v := 0; s_generator := [1; 0] |}) 1%Z = 0.75
  /\ ens_volatility
       (ll_substep diffusion_only flat_data
          {| W_p := constant 0; W_v := constant 1 |} 1 1 1 0 0
          {| ens_price := constant 100; ens_volatility := constant 0.25 |}) 0%Z
     = 50.25.
Proof.
  split; [|split; reflexivity].
  intros p data delta sqrt_delta i j k pr v wv z s mix st e.
  subst st e. rewrite sim_substep_price, sim_substep_volatility.
  unfold ll_substep. cbn [s_price s_volatility s_generator ens_price
    ens_volatility W_p W_v replay fst snd constant].
  rewrite !store_same. repeat split; reflexivity.
Qed.

(** *** The bandwidth fraction *)

(** C2 (the code departs from the claim).  Line 91 computes
    [4.0 / dimy + 2.0], which is 6, where the formula has
    [4 / (dimy + 2)]: the bandwidth fraction is
    [pow 6 (1/5) * pow N_sim (-1.5/5)] for every [pow] and [N_sim],
    and with a [pow] that tells the two bases apart the result differs
    from the one the formula gives. *)
Theorem h_frac_uses_base_six :
  (forall (libm : Libm) (N_sim : Z),
     h_frac N_sim
     = pow 6 (1 / 5) * pow (of_int N_sim) ((- 1.5) / 5))
  /\ 4 / of_int dimy + 2 = 6
  /\ 4 / (of_int dimy + 2) <> 6
  /\ @h_frac libm_linear 1
     <> @pow libm_linear (4 / (of_int dimy + 2)) (1 / (of_int dimy + 4))
        * @pow libm_linear (of_int 1)
            ((- (1 + undersmooth)) / (of_int dimy + 4)).
Proof.
  split; [|split; [|split]].
  - intros libm N. reflexivity.
  - reflexivity.
  - apply float_neq. vm_compute. discriminate.
  - apply float_neq. vm_compute. discriminate.
Qed.

(** *** The Wiener buffers *)

Lemma wiener_buffers_run {libm : Libm} p data :
  in_int (N_sim data * M_sim data) = true ->
  (0 <= N_sim data * M_sim data)%Z ->
  wiener_buffers p data
  = Some (run (Z.to_nat (N_sim data * M_sim data)) 0
            (fill_wiener (rho_pv p) data)
            {| W_p := wiener_price data; W_v := wiener_volatility data |}).
Proof.
  intros Hi H. unfold wiener_buffers. rewrite Hi.
  rewrite for_ne_total by exact H. rewrite Z.sub_0_r. reflexivity.
Qed.

Lemma wiener_buffers_some {libm : Libm} p data w :
  wiener_buffers p data = Some w ->
  in_int (N_sim data * M_sim data) = true
  /\ (0 <= N_sim data * M_sim data)%Z
  /\ w = run (Z.to_nat (N_sim data * M_sim data)) 0
           (fill_wiener (rho_pv p) data)
           {| W_p := wiener_price data; W_v := wiener_volatility data |}.
Proof.
  intros H. unfold wiener_buffers in H.
  destruct (in_int (N_sim data * M_sim data)) eqn:Hi; [|discriminate].
  destruct (Z.lt_ge_cases (N_sim data * M_sim data) 0) as [HW|HW].
  - rewrite for_ne_undefined in H by exact HW. discriminate.
  - rewrite for_ne_total in H by exact HW. rewrite Z.sub_0_r in H.
    injection H as <-. repeat split. exact HW.
Qed.

Lemma fill_wiener_run rho data n w0 idx :
  (0 <= idx < Z.of_nat n)%Z ->
  let w := run n 0 (fill_wiener rho data) w0 in
  W_v w idx = random_buffer_volatility data idx
  /\ W_p w idx = sqrt (1 - rho * rho) * random_buffer_price data idx
                 + rho * random_buffer_volatility data idx.
Proof.
  intros Hidx w. subst w.
  pose (P := fun (t : Z) (w : Wiener) =>
    forall k, (0 <= k < t)%Z ->
      W_v w k = random_buffer_volatility data k
      /\ W_p w k = sqrt (1 - rho * rho) * random_buffer_price data k
                   + rho * random_buffer_volatility data k).
  assert (H : P (0 + Z.of_nat n)%Z (run n 0 (fill_wiener rho data) w0)).
  { apply run_invariant.
    - intros k Hk. lia.
    - intros t a Ht Pa k Hk. unfold fill_wiener. cbn [W_p W_v].
      destruct (Z.eq_dec k t) as [->|Hne].
      + rewrite !store_same. split; reflexivity.
      + rewrite !store_other by exact Hne. apply Pa. lia. }
  apply H. lia.
Qed.

Lemma fill_wiener_frame rho data n w0 idx :
  (idx < 0 \/ Z.of_nat n <= idx)%Z ->
  let w := run n 0 (fill_wiener rho data) w0 in
  W_v w idx = W_v w0 idx /\ W_p w idx = W_p w0 idx.
Proof.
  intros Hidx w. subst w.
  pose (P := fun (t : Z) (w : Wiener) =>
    W_v w idx = W_v w0 idx /\ W_p w idx = W_p w0 idx).
  assert (H : P (0 + Z.of_nat n)%Z (run n 0 (fill_wiener rho data) w0)).
  { apply run_invariant.
    - split; reflexivity.
    - intros t a Ht Pa. unfold P, fill_wiener. cbn [W_p W_v].
      rewrite !store_other by lia. exact Pa. }
  exact H.
Qed.



(** *** The zero-noise scenario *)

Lemma sim_substep_frame {G} (normal : G -> double * G) sentiment p
    delta sqrt_delta i st k :
  k <> i ->
  s_price (sim_substep normal sentiment p delta sqrt_delta i st) k
  = s_price st k
  /\ s_volatility (sim_substep normal sentiment p delta sqrt_delta i st) k
     = s_volatility st k.
Proof.
  intros Hk. unfold sim_substep.
  destruct (normal (s_generator st)) as [wv g1].
  destruct (normal g1) as [z g2]. cbn [s_price s_volatility].
  rewrite !store_other by exact Hk. split; reflexivity.
Qed.

Lemma add_absorbs_zero_term (a y z : double) :
  is_zero a = false -> is_zero z = true -> a + (y + z) = a + y.
Proof.
  intros Ha Hz. destruct (is_zero y) eqn:Hy.
  - rewrite (add_zero_r a (y + z)), (add_zero_r a y); auto.
    apply add_zero_zero; assumption.
  - rewrite (add_zero_r y z) by assumption. reflexivity.
Qed.

(** C3 as the code has it.  With [N_obs = 2], [M_obs = 1], [dt = 1],
    [p0 = 100], [v0 = 0.04], [gamma_p = 1], [mu_p = 100], [rho_pv = 0],
    every draw equal to [0.0] and a finite diffusion coefficient
    [sigma_v * sqrt |v0|], the simulator returns [price[1] = 100] and
    [volatility[1] = volatility[0]
       + gamma_v * (mu_v + beta_v * |sentiment[1]| - v0) * dt]:
    the sentiment read is the one at index 1, the index of the
    observation being produced. *)
Theorem zero_noise_scenario :
  forall (G : Type) (normal : G -> double * G)
         (price volatility sentiment : array) (p : JointParameters)
         (W_p0 W_v0 : double) (g : G),
    (forall g', fst (normal g') = 0) ->
    gamma_p p = 1 -> mu_p p = 100 -> rho_pv p = 0 ->
    is_finite (sigma_v p * sqrt (abs v0_scenario)) = true ->
    exists st,
      simulate_joint_process normal price volatility sentiment p
        1 2 1 100 v0_scenario W_p0 W_v0 g = Some st
      /\ s_price st 1%Z = 100
      /\ s_volatility st 0%Z = v0_scenario
      /\ s_volatility st 1%Z
         = s_volatility st 0%Z
           + gamma_v p
             * (mu_v p + beta_v p * abs (sentiment 1%Z) - v0_scenario) * 1.
Proof.
  intros G normal price volatility sentiment p W_p0 W_v0 g
    Hdraw Hgp Hmp Hrho Hsv.
  pose (st0 :=
    {| s_price := store (store price 0 100) 1 (store price 0 100 (1 - 1)%Z);
       s_volatility :=
         store (store volatility 0 v0_scenario) 1
           (store volatility 0 v0_scenario (1 - 1)%Z);
       s_W_p := W_p0; s_W_v := W_v0; s_generator := g |}).
  exists (sim_substep normal sentiment p 1 1 1%Z st0).
  split; [reflexivity|].
  destruct (sim_substep_frame normal sentiment p 1 1 1%Z st0 0%Z) as [_ F0];
    [discriminate|].
  assert (V0 : s_volatility st0 0%Z = v0_scenario) by reflexivity.
  assert (V1 : s_volatility st0 1%Z = v0_scenario) by reflexivity.
  assert (P1 : s_price st0 1%Z = 100) by reflexivity.
  rewrite F0, V0, sim_substep_price, sim_substep_volatility, V1, P1, !Hdraw,
    Hgp, Hmp, Hrho.
  split; [reflexivity|]. split; [reflexivity|].
  apply add_absorbs_zero_term; [reflexivity|].
  apply mul_zero_l; [|reflexivity].
  apply mul_zero_l; [reflexivity|exact Hsv].
Qed.

Lemma zero_noise_scenario_witness :
  exists st,
    simulate_joint_process silent (constant 0) (constant 0)
      scenario_sentiment scenario_parameters 1 2 1 100 v0_scenario 0 0 tt
    = Some st
    /\ s_price st 1%Z = 100
    /\ s_volatility st 0%Z = v0_scenario
    /\ s_volatility st 1%Z
       = s_volatility st 0%Z
         + gamma_v scenario_parameters
           * (mu_v scenario_parameters
              + beta_v scenario_parameters * abs (scenario_sentiment 1%Z)
              - v0_scenario) * 1.
Proof.
  apply (zero_noise_scenario unit silent (constant 0) (constant 0)
           scenario_sentiment scenario_parameters 0 0 tt).
  - intros g'. reflexivity.
  - reflexivity.
  - reflexivity.
  - reflexivity.
  - reflexivity.
Defined.

(** C3 as stated fails: with sentiment 0 at index 0 and 1 at index 1,
    [gamma_v = beta_v = 1] and [mu_v = 0], the simulator returns
    [volatility[1] = 1], while the formula with [|sentiment[0]|] gives
    [0.04 + (0 - 0.04) = 0]. *)
Lemma zero_noise_scenario_counterexample :
  ~ (exists st,
       simulate_joint_process silent (constant 0) (constant 0)
         scenario_sentiment scenario_parameters 1 2 1 100 v0_scenario 0 0 tt
       = Some st
       /\ s_price st 1%Z = 100
       /\ s_volatility st 1%Z
          = s_volatility st 0%Z
            + gamma_v scenario_parameters
              * (mu_v scenario_parameters
                 + beta_v scenario_parameters * abs (scenario_sentiment 0%Z)
                 - v0_scenario) * 1).
Proof.
  intros [st [E [_ H]]].
  assert (E1 : option_map (fun st => s_volatility st 1%Z)
                 (simulate_joint_process silent (constant 0) (constant 0)
                    scenario_sentiment scenario_parameters 1 2 1 100
                    v0_scenario 0 0 tt) = Some 1) by reflexivity.
  assert (E0 : option_map (fun st => s_volatility st 0%Z)
                 (simulate_joint_process silent (constant 0) (constant 0)
                    scenario_sentiment scenario_parameters 1 2 1 100
                    v0_scenario 0 0 tt) = Some v0_scenario) by reflexivity.
  rewrite E in E1, E0. cbn [option_map] in E1, E0.
  injection E1 as E1. injection E0 as E0. rewrite E1, E0 in H.
  revert H. apply float_neq. vm_compute. discriminate.
Qed.

(** *** The degenerate volatility path *)

Section Degenerate.

Context {G : Type} (normal : G -> double * G) (sentiment : array)
  (p : JointParameters) (delta sqrt_delta : double).

Hypothesis mu_v_zero : is_zero (mu_v p) = true.
Hypothesis beta_v_zero : is_zero (beta_v p) = true.
Hypothesis gamma_v_zero : is_zero (gamma_v p) = true.
Hypothesis sigma_v_zero : is_zero (sigma_v p) = true.
Hypothesis draws_finite : forall g, is_finite (fst (normal g)) = true.
Hypothesis sentiment_finite : forall k, is_finite (sentiment k) = true.
Hypothesis delta_finite : is_finite delta = true.
Hypothesis sqrt_delta_finite : is_finite sqrt_delta = true.

Lemma sim_substep_keeps_zero i st :
  is_zero (s_volatility st i) = true ->
  is_zero (s_volatility (sim_substep normal sentiment p delta sqrt_delta i st) i)
  = true.
Proof.
  intros Hv. rewrite sim_substep_volatility.
  apply add_zero_zero; [exact Hv|].
  apply add_zero_zero.
  - apply mul_zero_l; [|exact delta_finite].
    apply mul_zero_l; [exact gamma_v_zero|].
    apply is_zero_is_finite, sub_zero_zero; [|exact Hv].
    apply add_zero_zero; [exact mu_v_zero|].
    apply mul_zero_l; [exact beta_v_zero|].
    apply abs_is_finite, sentiment_finite.
  - apply mul_zero_l; [|exact sqrt_delta_finite].
    apply mul_zero_r; [apply draws_finite|].
    apply mul_zero_l; [exact sigma_v_zero|].
    apply is_zero_is_finite, sqrt_is_zero, abs_is_zero, Hv.
Qed.

Lemma sim_obs_step_keeps_zero M_obs i st :
  (0 <= M_obs)%Z ->
  (forall l, (0 <= l < i)%Z -> is_zero (s_volatility st l) = true) ->
  (1 <= i)%Z ->
  exists st',
    sim_obs_step normal sentiment p delta sqrt_delta M_obs i st = Some st'
    /\ forall l, (0 <= l < i + 1)%Z -> is_zero (s_volatility st' l) = true.
Proof.
  intros HM Hst Hi. unfold sim_obs_step.
  rewrite for_ne_total by exact HM.
  eexists. split; [reflexivity|].
  pose (Q := fun (_ : Z) (a : SimState G) =>
    forall l, (0 <= l < i + 1)%Z -> is_zero (s_volatility a l) = true).
  apply (run_invariant Q).
  - intros l Hl. cbn [s_volatility].
    destruct (Z.eq_dec l i) as [->|Hne].
    + rewrite store_same. apply Hst. lia.
    + rewrite store_other by exact Hne. apply Hst. lia.
  - intros t a _ Qa l Hl.
    destruct (Z.eq_dec l i) as [->|Hne].
    + apply sim_substep_keeps_zero, Qa. lia.
    + destruct (sim_substep_frame normal sentiment p delta sqrt_delta i a l Hne)
        as [_ F].
      rewrite F. apply Qa, Hl.
Qed.

End Degenerate.

(** C9.  With [mu_v], [beta_v], [gamma_v], [sigma_v] and [v0] zero,
    finite draws and sentiment values, and a step [dt / M_obs] that is
    finite with a finite square root (as it is for every finite
    [dt >= 0] and [M_obs >= 1]), the simulator returns a volatility
    path that is zero at every index [0 .. N_obs - 1], whatever the
    other parameters, the initial price and the contents of the
    arrays. *)
Theorem degenerate_volatility_path :
  forall (G : Type) (normal : G -> double * G)
         (price volatility sentiment : array) (p : JointParameters)
         (dt : double) (N_obs M_obs : Z) (p0 v0 W_p0 W_v0 : double) (g : G),
    is_zero (mu_v p) = true ->
    is_zero (beta_v p) = true ->
    is_zero (gamma_v p) = true ->
    is_zero (sigma_v p) = true ->
    is_zero v0 = true ->
    (forall g', is_finite (fst (normal g')) = true) ->
    (forall k, is_finite (sentiment k) = true) ->
    is_finite (dt / of_int M_obs) = true ->
    is_finite (sqrt (dt / of_int M_obs)) = true ->
    (1 <= N_obs)%Z ->
    (1 <= M_obs)%Z ->
    exists st,
      simulate_joint_process normal price volatility sentiment p dt
        N_obs M_obs p0 v0 W_p0 W_v0 g = Some st
      /\ forall i, (0 <= i < N_obs)%Z -> is_zero (s_volatility st i) = true.
Proof.
  intros G normal price volatility sentiment p dt N_obs M_obs p0 v0 W_p0 W_v0
    g Hmu Hbeta Hgamma Hsigma Hv0 Hdraws Hsent Hd Hsd HN HM.
  unfold simulate_joint_process. rewrite for_ne_iterate by exact HN.
  pose (P := fun (t : Z) (a : SimState G) =>
    (1 <= t)%Z /\
    forall l, (0 <= l < t)%Z -> is_zero (s_volatility a l) = true).
  destruct (iterate_invariant P
    (sim_obs_step normal sentiment p (dt / of_int M_obs)
       (sqrt (dt / of_int M_obs)) M_obs)
    (Z.to_nat (N_obs - 1)) 1
    {| s_price := store price 0 p0; s_volatility := store volatility 0 v0;
       s_W_p := W_p0; s_W_v := W_v0; s_generator := g |})
    as [st [E [_ Pst]]].
  - split; [lia|]. intros l Hl. cbn [s_volatility].
    replace l with 0%Z by lia. rewrite store_same. exact Hv0.
  - intros t a Ht [Ht1 Pa].
    destruct (sim_obs_step_keeps_zero normal sentiment p (dt / of_int M_obs)
                (sqrt (dt / of_int M_obs)) Hmu Hbeta Hgamma Hsigma Hdraws
                Hsent Hd Hsd M_obs t a) as [b [Eb Pb]];
      [lia|exact Pa|exact Ht1|].
    exists b. split; [exact Eb|]. split; [lia|exact Pb].
  - exists st. split; [exact E|].
    intros i Hi. apply Pst. lia.
Qed.

Lemma degenerate_volatility_path_witness :
  exists st,
    simulate_joint_process alternating (constant 0) (constant 0)
      (constant 0.5) degenerate 1 3 2 100 0 0 0 true
    = Some st
    /\ forall i, (0 <= i < 3)%Z -> is_zero (s_volatility st i) = true.
Proof.
  apply (degenerate_volatility_path bool alternating (constant 0)
           (constant 0) (constant 0.5) degenerate 1 3 2 100 0 0 0 true);
    try reflexivity; try lia.
  intros [|]; reflexivity.
Defined.

(** *** The ensemble *)

Section EnsembleFacts.

Variables (p : JointParameters) (data : WrapperSimulatedJoint)
  (delta sqrt_delta : double).

Lemma ll_substep_at w1 w2 i j k e1 e2 :
  same_at e1 e2 j ->
  W_p w1 (j * M_sim data + k)%Z = W_p w2 (j * M_sim data + k)%Z ->
  W_v w1 (j * M_sim data + k)%Z = W_v w2 (j * M_sim data + k)%Z ->
  same_at (ll_substep p data w1 delta sqrt_delta i j k e1)
          (ll_substep p data w2 delta sqrt_delta i j k e2) j.
Proof.
  intros [Hp Hv] Wp Wv. unfold same_at, ll_substep.
  cbn [ens_price ens_volatility]. rewrite !store_same, Hp, Hv, Wp, Wv.
  split; reflexivity.
Qed.

Lemma ll_substep_frame w i j k e l :
  l <> j -> same_at (ll_substep p data w delta sqrt_delta i j k e) e l.
Proof.
  intros Hl. unfold same_at, ll_substep. cbn [ens_price ens_volatility].
  rewrite !store_other by exact Hl. split; reflexivity.
Qed.

Lemma member_path_at w1 w2 i j e1 e2 :
  same_at e1 e2 j -> wiener_agree data w1 w2 j ->
  same_at (member_path p data w1 delta sqrt_delta i j e1)
          (member_path p data w2 delta sqrt_delta i j e2) j.
Proof.
  intros He Hw. unfold member_path.
  apply (run_related (fun _ a b => same_at a b j)); [exact He|].
  intros t a b Ht Hab.
  destruct (Hw t) as [Wp Wv]; [lia|].
  apply ll_substep_at; assumption.
Qed.

Lemma member_path_frame w i j e l :
  l <> j -> same_at (member_path p data w delta sqrt_delta i j e) e l.
Proof.
  intros Hl. unfold member_path.
  apply (run_invariant (fun _ a => same_at a e l)).
  - split; reflexivity.
  - intros t a _ [Ha1 Ha2].
    destruct (ll_substep_frame w i j t a l Hl) as [F1 F2].
    split; congruence.
Qed.

Lemma ll_member_defined w i j e :
  (0 <= M_sim data)%Z ->
  ll_member p data w delta sqrt_delta i j e
  = Some (member_path p data w delta sqrt_delta i j (reset_member data i j e)).
Proof.
  intros HM. unfold ll_member. rewrite for_ne_total by exact HM.
  rewrite Z.sub_0_r. reflexivity.
Qed.

Lemma ll_member_undefined w i j e :
  (M_sim data < 0)%Z -> ll_member p data w delta sqrt_delta i j e = None.
Proof. intros HM. unfold ll_member. apply for_ne_undefined, HM. Qed.

Lemma reset_member_at i j e1 e2 :
  same_at (reset_member data i j e1) (reset_member data i j e2) j.
Proof.
  unfold same_at, reset_member. cbn [ens_price ens_volatility].
  rewrite !store_same. split; reflexivity.
Qed.

Lemma reset_member_frame i j e l :
  l <> j -> same_at (reset_member data i j e) e l.
Proof.
  intros Hl. unfold same_at, reset_member. cbn [ens_price ens_volatility].
  rewrite !store_other by exact Hl. split; reflexivity.
Qed.

Lemma same_at_trans e1 e2 e3 j :
  same_at e1 e2 j -> same_at e2 e3 j -> same_at e1 e3 j.
Proof. intros [A B] [C D]. split; congruence. Qed.

Lemma same_at_sym e1 e2 j : same_at e1 e2 j -> same_at e2 e1 j.
Proof. intros [A B]. split; congruence. Qed.

(** One trip of the [j] loop: member [j] is rebuilt from the observed
    state, the other members stay. *)
Lemma ll_member_step_frame w i j e l :
  l <> j ->
  same_at (member_path p data w delta sqrt_delta i j (reset_member data i j e))
          e l.
Proof.
  intros Hl. eapply same_at_trans.
  - apply member_path_frame, Hl.
  - apply reset_member_frame, Hl.
Qed.

(** The [j] loop started from two ensembles, with Wiener buffers that
    agree on the increments of every member. *)
Lemma ensemble_loop_related w1 w2 i e1 e2 :
  (forall j, (0 <= j < N_sim data)%Z -> wiener_agree data w1 w2 j) ->
  opt_rel (fun r1 r2 => forall j, (0 <= j < N_sim data)%Z -> same_at r1 r2 j)
    (for_ne 0 (N_sim data) (ll_member p data w1 delta sqrt_delta i) e1)
    (for_ne 0 (N_sim data) (ll_member p data w2 delta sqrt_delta i) e2).
Proof.
  intros Hw. destruct (Z.lt_ge_cases (N_sim data) 0) as [HN|HN].
  - rewrite !for_ne_undefined by exact HN. exact I.
  - rewrite !for_ne_iterate by exact HN. rewrite Z.sub_0_r.
    pose (R := fun (t : Z) (a b : Ensemble) =>
      forall j, (0 <= j < t)%Z -> same_at a b j).
    assert (H : opt_rel (R (0 + Z.of_nat (Z.to_nat (N_sim data)))%Z)
      (iterate (Z.to_nat (N_sim data)) 0
         (ll_member p data w1 delta sqrt_delta i) e1)
      (iterate (Z.to_nat (N_sim data)) 0
         (ll_member p data w2 delta sqrt_delta i) e2)).
    { apply iterate_related.
      - intros j Hj. lia.
      - intros t a b Ht Rab.
        destruct (Z.lt_ge_cases (M_sim data) 0) as [HM|HM].
        + rewrite !ll_member_undefined by exact HM. exact I.
        + rewrite !ll_member_defined by exact HM. simpl.
          intros j Hj. destruct (Z.eq_dec j t) as [->|Hne].
          * apply member_path_at; [apply reset_member_at|].
            apply Hw. lia.
          * eapply same_at_trans; [apply ll_member_step_frame, Hne|].
            eapply same_at_trans; [apply Rab; lia|].
            apply same_at_sym, ll_member_step_frame, Hne. }
    replace (0 + Z.of_nat (Z.to_nat (N_sim data)))%Z with (N_sim data) in H
      by lia.
    exact H.
Qed.

(** The [j] loop with defined trip counts. *)
Lemma ensemble_loop_defined w i e :
  (0 <= N_sim data)%Z -> (0 <= M_sim data)%Z ->
  for_ne 0 (N_sim data) (ll_member p data w delta sqrt_delta i) e
  = Some (run (Z.to_nat (N_sim data)) 0
            (fun j e =>
               member_path p data w delta sqrt_delta i j
                 (reset_member data i j e)) e).
Proof.
  intros HN HM. rewrite for_ne_iterate by exact HN. rewrite Z.sub_0_r.
  rewrite <- iterate_total.
  generalize (Z.to_nat (N_sim data)) 0%Z e.
  intros n. induction n as [|n IH]; intros t a; simpl.
  - reflexivity.
  - rewrite ll_member_defined by exact HM. simpl. apply IH.
Qed.

Lemma ensemble_loop_members w i e n j :
  (0 <= j < Z.of_nat n)%Z ->
  same_at (run n 0
             (fun j e =>
                member_path p data w delta sqrt_delta i j
                  (reset_member data i j e)) e)
          (member_path p data w delta sqrt_delta i j (observed_ensemble data i)) j.
Proof.
  intros Hj.
  pose (P := fun (t : Z) (a : Ensemble) =>
    forall l, (0 <= l < t)%Z ->
      same_at a (member_path p data w delta sqrt_delta i l (observed_ensemble data i)) l).
  assert (H : P (0 + Z.of_nat n)%Z
    (run n 0
       (fun j e =>
          member_path p data w delta sqrt_delta i j (reset_member data i j e))
       e)).
  { apply run_invariant.
    - intros l Hl. lia.
    - intros t a Ht Pa l Hl. destruct (Z.eq_dec l t) as [->|Hne].
      + apply member_path_at.
        * unfold same_at, reset_member, observed_ensemble.
          cbn [ens_price ens_volatility]. rewrite !store_same.
          split; reflexivity.
        * intros k Hk. split; reflexivity.
      + eapply same_at_trans; [apply ll_member_step_frame, Hne|].
        apply Pa. lia. }
  apply H. lia.
Qed.

Lemma ensemble_loop_frame w i e n l :
  (l < 0 \/ Z.of_nat n <= l)%Z ->
  same_at (run n 0
             (fun j e =>
                member_path p data w delta sqrt_delta i j
                  (reset_member data i j e)) e) e l.
Proof.
  intros Hl.
  apply (run_invariant (fun _ a => same_at a e l)).
  - split; reflexivity.
  - intros t a Ht Ha.
    eapply same_at_trans; [apply ll_member_step_frame; lia|exact Ha].
Qed.

End EnsembleFacts.

(** *** Independence from the scratch buffers *)

Lemma main_loop_succ {libm : Libm} {header : Header} p data w delta sqrt_delta
    c n i st :
  main_loop p data w delta sqrt_delta c (S n) i st
  = (st' <- ll_obs_step p data w delta sqrt_delta i st ;;
     if c && exit_guard (ll st') then Some (max_double, ens st')
     else main_loop p data w delta sqrt_delta c n (i + 1)%Z st').
Proof. reflexivity. Qed.

Lemma runaway_loop_succ {libm : Libm} {header : Header} p data w delta
    sqrt_delta c n i st :
  runaway_loop p data w delta sqrt_delta c (S n) i st
  = (st' <- ll_obs_step p data w delta sqrt_delta i st ;;
     if c && exit_guard (ll st') then Some (max_double, ens st')
     else runaway_loop p data w delta sqrt_delta c n (i + 1)%Z st').
Proof. reflexivity. Qed.

Section WithScratch.

Context {libm : Libm} {header : Header}.
Variables (p : JointParameters) (data : WrapperSimulatedJoint)
  (sp sv wp wv : array) (w : Wiener) (delta sqrt_delta : double).

Lemma ll_obs_step_with_scratch i st :
  ll_obs_step p (with_scratch data sp sv wp wv) w delta sqrt_delta i st
  = ll_obs_step p data w delta sqrt_delta i st.
Proof. reflexivity. Qed.

Lemma main_loop_with_scratch c n i st :
  main_loop p (with_scratch data sp sv wp wv) w delta sqrt_delta c n i st
  = main_loop p data w delta sqrt_delta c n i st.
Proof.
  revert i st. induction n as [|n IH]; intros i st.
  - reflexivity.
  - rewrite !main_loop_succ, ll_obs_step_with_scratch.
    destruct (ll_obs_step p data w delta sqrt_delta i st) as [st'|];
      cbn [bind]; [|reflexivity].
    rewrite IH. reflexivity.
Qed.

Lemma runaway_loop_with_scratch c n i st :
  runaway_loop p (with_scratch data sp sv wp wv) w delta sqrt_delta c n i st
  = runaway_loop p data w delta sqrt_delta c n i st.
Proof.
  revert i st. induction n as [|n IH]; intros i st.
  - reflexivity.
  - rewrite !runaway_loop_succ, ll_obs_step_with_scratch.
    destruct (ll_obs_step p data w delta sqrt_delta i st) as [st'|];
      cbn [bind]; [|reflexivity].
    rewrite IH. reflexivity.
Qed.

End WithScratch.

Lemma initial_state_with_scratch data sp sv wp wv :
  initial_state (with_scratch data sp sv wp wv)
  = {| ll := 0; kernel_sum := 0;
       ens := {| ens_price := sp; ens_volatility := sv |} |}.
Proof. reflexivity. Qed.

Lemma wiener_buffers_with_scratch {libm : Libm} p data sp sv wp wv :
  wiener_buffers p (with_scratch data sp sv wp wv)
  = (if in_int (N_sim data * M_sim data) then
       for_ne 0 (N_sim data * M_sim data)%Z
         (fun i w => Some (fill_wiener (rho_pv p) data i w))
         {| W_p := wp; W_v := wv |}
     else None).
Proof. reflexivity. Qed.

Lemma simulated_ll_joint_with_scratch {libm : Libm} {header : Header}
    c x grad data sp sv wp wv :
  simulated_ll_joint c x grad (with_scratch data sp sv wp wv)
  = (p <- unwrap x ;;
     w <- (if in_int (N_sim data * M_sim data) then
             for_ne 0 (N_sim data * M_sim data)%Z
               (fun i w => Some (fill_wiener (rho_pv p) data i w))
               {| W_p := wp; W_v := wv |}
           else None) ;;
     r <- (if (N_obs data <? 1)%Z
           then runaway_loop p data w (dt data / of_int (M_sim data))
                  (sqrt (dt data / of_int (M_sim data))) c int_trips 1
                  {| ll := 0; kernel_sum := 0;
                     ens := {| ens_price := sp; ens_volatility := sv |} |}
           else main_loop p data w (dt data / of_int (M_sim data))
                  (sqrt (dt data / of_int (M_sim data))) c
                  (Z.to_nat (N_obs data - 1)) 1
                  {| ll := 0; kernel_sum := 0;
                     ens := {| ens_price := sp; ens_volatility := sv |} |}) ;;
     Some (fst r, write_back (with_scratch data sp sv wp wv) w (snd r))).
Proof.
  unfold simulated_ll_joint.
  rewrite (initial_state_with_scratch data sp sv wp wv).
  change (dt (with_scratch data sp sv wp wv)) with (dt data).
  change (M_sim (with_scratch data sp sv wp wv)) with (M_sim data).
  change (N_obs (with_scratch data sp sv wp wv)) with (N_obs data).
  destruct (unwrap x) as [p|]; cbn [bind]; [|reflexivity].
  rewrite wiener_buffers_with_scratch.
  destruct (in_int (N_sim data * M_sim data)); [|reflexivity].
  destruct (for_ne 0 (N_sim data * M_sim data) _ _) as [w|]; cbn [bind];
    [|reflexivity].
  rewrite main_loop_with_scratch, runaway_loop_with_scratch.
  reflexivity.
Qed.

Lemma fsum_prefix n f g :
  (forall k, (0 <= k < Z.of_nat n)%Z -> f k = g k) -> fsum n f = fsum n g.
Proof.
  induction n as [|n IH]; intros H; simpl.
  - reflexivity.
  - rewrite IH, (H (Z.of_nat n)) by (try intros k Hk; try apply H; lia).
    reflexivity.
Qed.

Lemma st_dev_population_prefix a b n :
  (forall k, (0 <= k < n)%Z -> a k = b k) ->
  st_dev_population a n = st_dev_population b n.
Proof.
  intros H. unfold st_dev_population.
  assert (E : fsum (Z.to_nat n) a = fsum (Z.to_nat n) b).
  { apply fsum_prefix. intros k Hk. apply H. lia. }
  rewrite E. f_equal. f_equal.
  apply fsum_prefix. intros k Hk. rewrite (H k) by lia. reflexivity.
Qed.

Section Scratch.

Context {libm : Libm} {header : Header}.

(** [st_dev (a, n)] reads [a[0 .. n)] only. *)
Hypothesis st_dev_prefix :
  forall a b n, (forall k, (0 <= k < n)%Z -> a k = b k) ->
    st_dev a n = st_dev b n.

Variables (p : JointParameters) (data : WrapperSimulatedJoint)
  (delta sqrt_delta : double).

Lemma kernel_loop_related h_price h_volatility e1 e2 i ks :
  (forall j, (0 <= j < N_sim data)%Z -> same_at e1 e2 j) ->
  for_ne 0 (N_sim data)
    (fun j ks => Some (kernel_term data h_price h_volatility e1 i j ks)) ks
  = for_ne 0 (N_sim data)
      (fun j ks => Some (kernel_term data h_price h_volatility e2 i j ks)) ks.
Proof.
  intros He. destruct (Z.lt_ge_cases (N_sim data) 0) as [HN|HN].
  - rewrite !for_ne_undefined by exact HN. reflexivity.
  - rewrite !for_ne_total by exact HN. f_equal. rewrite Z.sub_0_r.
    pose (R := fun (t : Z) (a b : double) =>
      (t <= N_sim data)%Z /\ a = b).
    assert (H : R (0 + Z.of_nat (Z.to_nat (N_sim data)))%Z
      (run (Z.to_nat (N_sim data)) 0
         (kernel_term data h_price h_volatility e1 i) ks)
      (run (Z.to_nat (N_sim data)) 0
         (kernel_term data h_price h_volatility e2 i) ks)).
    { apply run_related.
      - split; [lia|reflexivity].
      - intros t a b Ht [_ ->]. split; [lia|].
        destruct (He t) as [Ep Ev]; [lia|].
        unfold kernel_term. rewrite Ep, Ev. reflexivity. }
    apply H.
Qed.

Lemma ll_obs_step_related w1 w2 i st1 st2 :
  (forall j, (0 <= j < N_sim data)%Z -> wiener_agree data w1 w2 j) ->
  ll st1 = ll st2 ->
  kernel_sum st1 = kernel_sum st2 ->
  opt_rel (fun a b => ll a = ll b /\ kernel_sum a = kernel_sum b)
    (ll_obs_step p data w1 delta sqrt_delta i st1)
    (ll_obs_step p data w2 delta sqrt_delta i st2).
Proof.
  intros Hw Hll Hks. unfold ll_obs_step.
  pose proof (ensemble_loop_related p data delta sqrt_delta w1 w2 i
                (ens st1) (ens st2) Hw) as He.
  destruct (for_ne 0 (N_sim data) (ll_member p data w1 delta sqrt_delta i)
              (ens st1)) as [e1|];
    destruct (for_ne 0 (N_sim data) (ll_member p data w2 delta sqrt_delta i)
                (ens st2)) as [e2|];
    simpl in He; try contradiction; simpl bind; [|exact I].
  assert (Ep : st_dev (ens_price e1) (N_sim data)
               = st_dev (ens_price e2) (N_sim data)).
  { apply st_dev_prefix. intros k Hk. apply (He k Hk). }
  assert (Ev : st_dev (ens_volatility e1) (N_sim data)
               = st_dev (ens_volatility e2) (N_sim data)).
  { apply st_dev_prefix. intros k Hk. apply (He k Hk). }
  rewrite Ep, Ev, Hks.
  rewrite (kernel_loop_related _ _ e1 e2 i (kernel_sum st2) He).
  destruct (for_ne 0 (N_sim data) _ (kernel_sum st2)) as [ks|]; simpl;
    [|exact I].
  rewrite Hll. split; reflexivity.
Qed.

Lemma main_loop_related w1 w2 c n i st1 st2 :
  (forall j, (0 <= j < N_sim data)%Z -> wiener_agree data w1 w2 j) ->
  ll st1 = ll st2 ->
  kernel_sum st1 = kernel_sum st2 ->
  option_map fst (main_loop p data w1 delta sqrt_delta c n i st1)
  = option_map fst (main_loop p data w2 delta sqrt_delta c n i st2).
Proof.
  intros Hw. revert i st1 st2.
  induction n as [|n IH]; intros i st1 st2 Hll Hks; simpl.
  - rewrite Hll. reflexivity.
  - pose proof (ll_obs_step_related w1 w2 i st1 st2 Hw Hll Hks) as Hs.
    destruct (ll_obs_step p data w1 delta sqrt_delta i st1) as [a|];
      destruct (ll_obs_step p data w2 delta sqrt_delta i st2) as [b|];
      simpl in Hs; try contradiction; simpl bind; [|reflexivity].
    destruct Hs as [Hll' Hks']. rewrite Hll'.
    destruct (c && exit_guard (ll b)); [reflexivity|].
    apply IH; assumption.
Qed.

Lemma runaway_loop_related w1 w2 c n i st1 st2 :
  (forall j, (0 <= j < N_sim data)%Z -> wiener_agree data w1 w2 j) ->
  ll st1 = ll st2 ->
  kernel_sum st1 = kernel_sum st2 ->
  option_map fst (runaway_loop p data w1 delta sqrt_delta c n i st1)
  = option_map fst (runaway_loop p data w2 delta sqrt_delta c n i st2).
Proof.
  intros Hw. revert i st1 st2.
  induction n as [|n IH]; intros i st1 st2 Hll Hks.
  - reflexivity.
  - rewrite !runaway_loop_succ.
    pose proof (ll_obs_step_related w1 w2 i st1 st2 Hw Hll Hks) as Hs.
    destruct (ll_obs_step p data w1 delta sqrt_delta i st1) as [a|];
      destruct (ll_obs_step p data w2 delta sqrt_delta i st2) as [b|];
      simpl in Hs; try contradiction; cbn [bind]; [|reflexivity].
    destruct Hs as [Hll' Hks']. rewrite Hll'.
    destruct (c && exit_guard (ll b)); [reflexivity|].
    apply IH; assumption.
Qed.

End Scratch.

(** C5.  The value the evaluator returns is a function of the parameter
    vector, the observed price, volatility and sentiment arrays, the two
    innovation buffers and the grid sizes alone: two calls that agree on
    these return the same double, whatever the ensemble and Wiener
    buffers and the gradient vector hold on entry, provided [st_dev]
    reads only the [n] cells it is given. *)
Theorem evaluator_deterministic :
  forall (libm : Libm) (header : Header),
    (forall a b n, (forall k, (0 <= k < n)%Z -> a k = b k) ->
       st_dev a n = st_dev b n) ->
    forall (c : bool) (x grad1 grad2 : list double)
           (data1 data2 : WrapperSimulatedJoint),
      price data1 = price data2 ->
      volatility data1 = volatility data2 ->
      interpolated_sentiment data1 = interpolated_sentiment data2 ->
      random_buffer_price data1 = random_buffer_price data2 ->
      random_buffer_volatility data1 = random_buffer_volatility data2 ->
      N_obs data1 = N_obs data2 ->
      N_sim data1 = N_sim data2 ->
      M_sim data1 = M_sim data2 ->
      dt data1 = dt data2 ->
      option_map fst (simulated_ll_joint c x grad1 data1)
      = option_map fst (simulated_ll_joint c x grad2 data2).
Proof.
  intros libm header Hsd c x grad1 grad2 data1 data2
    Hp Hv Hs Hrp Hrv HNo HNs HMs Hdt.
  assert (E1 : data1 = with_scratch data1 (simulated_price data1)
                 (simulated_volatility data1) (wiener_price data1)
                 (wiener_volatility data1)) by (destruct data1; reflexivity).
  assert (E2 : data2 = with_scratch data1 (simulated_price data2)
                 (simulated_volatility data2) (wiener_price data2)
                 (wiener_volatility data2)).
  { destruct data1, data2. cbn in *. subst. reflexivity. }
  rewrite E2. rewrite E1 at 1.
  rewrite !simulated_ll_joint_with_scratch.
  destruct (unwrap x) as [p|]; cbn [bind]; [|reflexivity].
  destruct (in_int (N_sim data1 * M_sim data1)); [|reflexivity].
  destruct (Z.lt_ge_cases (N_sim data1 * M_sim data1) 0) as [HW|HW].
  - rewrite !for_ne_undefined by exact HW. reflexivity.
  - rewrite !for_ne_total by exact HW. cbn [bind].
    rewrite Z.sub_0_r.
    set (n := Z.to_nat (N_sim data1 * M_sim data1)).
    set (w1 := run n 0 (fill_wiener (rho_pv p) data1)
                 {| W_p := wiener_price data1;
                    W_v := wiener_volatility data1 |}).
    set (w2 := run n 0 (fill_wiener (rho_pv p) data1)
                 {| W_p := wiener_price data2;
                    W_v := wiener_volatility data2 |}).
    assert (Hw : forall j, (0 <= j < N_sim data1)%Z ->
                   wiener_agree data1 w1 w2 j).
    { intros j Hj k Hk.
      assert (Hidx : (0 <= j * M_sim data1 + k < Z.of_nat n)%Z).
      { unfold n. rewrite Z2Nat.id by exact HW. nia. }
      destruct (fill_wiener_run (rho_pv p) data1 n
                  {| W_p := wiener_price data1;
                     W_v := wiener_volatility data1 |} _ Hidx) as [A1 B1].
      destruct (fill_wiener_run (rho_pv p) data1 n
                  {| W_p := wiener_price data2;
                     W_v := wiener_volatility data2 |} _ Hidx) as [A2 B2].
      fold w1 in A1, B1. fold w2 in A2, B2. split; congruence. }
    set (s1 := {| ll := 0; kernel_sum := 0;
                  ens := {| ens_price := simulated_price data1;
                            ens_volatility := simulated_volatility data1 |} |}).
    set (s2 := {| ll := 0; kernel_sum := 0;
                  ens := {| ens_price := simulated_price data2;
                            ens_volatility := simulated_volatility data2 |} |}).
    destruct (N_obs data1 <? 1)%Z.
    + pose proof (runaway_loop_related Hsd p data1
                    (dt data1 / of_int (M_sim data1))
                    (sqrt (dt data1 / of_int (M_sim data1))) w1 w2 c
                    int_trips 1 s1 s2 Hw eq_refl eq_refl) as H.
      destruct (runaway_loop p data1 w1 _ _ c _ 1 s1) as [r1|];
        destruct (runaway_loop p data1 w2 _ _ c _ 1 s2) as [r2|];
        cbn [option_map bind fst] in H |- *; congruence.
    + pose proof (main_loop_related Hsd p data1
                    (dt data1 / of_int (M_sim data1))
                    (sqrt (dt data1 / of_int (M_sim data1))) w1 w2 c
                    (Z.to_nat (N_obs data1 - 1)) 1 s1 s2 Hw eq_refl eq_refl)
        as H.
      destruct (main_loop p data1 w1 _ _ c _ 1 s1) as [r1|];
        destruct (main_loop p data1 w2 _ _ c _ 1 s2) as [r2|];
        cbn [option_map bind fst] in H |- *; congruence.
Qed.

Lemma evaluator_deterministic_witness :
  option_map fst
    (@simulated_ll_joint libm_linear header_population true small_x []
       small_data)
  = option_map fst
      (@simulated_ll_joint libm_linear header_population true small_x [1; 2]
         (with_scratch small_data (constant 3) (constant 4) (constant 5)
            (constant 6))).
Proof.
  apply (evaluator_deterministic libm_linear header_population
           st_dev_population_prefix true small_x [] [1; 2] small_data
           (with_scratch small_data (constant 3) (constant 4) (constant 5)
              (constant 6)));
    reflexivity.
Defined.

(** *** The early exit *)

Section MainLoop.

Context {libm : Libm} {header : Header}.
Variables (p : JointParameters) (data : WrapperSimulatedJoint) (w : Wiener)
  (delta sqrt_delta : double).

Let step := ll_obs_step p data w delta sqrt_delta.

Lemma main_loop_unguarded n i st :
  main_loop p data w delta sqrt_delta false n i st
  = (st' <- iterate n i step st ;; Some (- ll st', ens st')).
Proof.
  revert i st. induction n as [|n IH]; intros i st; simpl.
  - reflexivity.
  - fold step. destruct (step i st) as [s1|]; simpl; [apply IH|reflexivity].
Qed.

Lemma main_loop_exit_first n k i st st' :
  (k < n)%nat ->
  iterate (S k) i step st = Some st' ->
  exit_guard (ll st') = true ->
  (forall m s, (1 <= m <= k)%nat -> iterate m i step st = Some s ->
     exit_guard (ll s) = false) ->
  main_loop p data w delta sqrt_delta true n i st
  = Some (max_double, ens st').
Proof.
  revert n i st. induction k as [|k IH]; intros n i st Hn Hit Hg Hfirst.
  - destruct n as [|n]; [lia|]. simpl in Hit |- *. fold step.
    destruct (step i st) as [s1|]; simpl in Hit |- *; [|discriminate].
    injection Hit as ->. rewrite Hg. reflexivity.
  - destruct n as [|n]; [lia|].
    change (iterate (S (S k)) i step st)
      with (s1 <- step i st ;; iterate (S k) (i + 1)%Z step s1) in Hit.
    simpl main_loop. fold step.
    destruct (step i st) as [s1|] eqn:E1; simpl bind in Hit |- *;
      [|discriminate].
    assert (G1 : exit_guard (ll s1) = false).
    { apply (Hfirst 1%nat); [lia|]. simpl. fold step. rewrite E1. reflexivity. }
    rewrite G1. simpl andb. cbv iota.
    apply IH; [lia|exact Hit|exact Hg|].
    intros m s Hm Hs. apply (Hfirst (S m)); [lia|].
    simpl. fold step. rewrite E1. exact Hs.
Qed.

Lemma main_loop_exit_by n k i st st' :
  (k < n)%nat ->
  iterate (S k) i step st = Some st' ->
  exit_guard (ll st') = true ->
  exists j st'',
    (j <= k)%nat
    /\ iterate (S j) i step st = Some st''
    /\ main_loop p data w delta sqrt_delta true n i st
       = Some (max_double, ens st'').
Proof.
  revert n i st. induction k as [|k IH]; intros n i st Hn Hit Hg.
  - exists 0%nat, st'. split; [lia|]. split; [exact Hit|].
    apply (main_loop_exit_first n 0 i st st'); try assumption.
    intros m s Hm. lia.
  - destruct n as [|n]; [lia|].
    change (iterate (S (S k)) i step st)
      with (s1 <- step i st ;; iterate (S k) (i + 1)%Z step s1) in Hit.
    destruct (step i st) as [s1|] eqn:E1; simpl bind in Hit; [|discriminate].
    destruct (exit_guard (ll s1)) eqn:G1.
    + exists 0%nat, s1. split; [lia|]. split.
      * simpl. fold step. rewrite E1. reflexivity.
      * simpl. fold step. rewrite E1. simpl. rewrite G1. reflexivity.
    + destruct (IH n (i + 1)%Z s1) as [j [s2 [Hj [Hs2 Hm]]]];
        [lia|exact Hit|exact Hg|].
      exists (S j), s2. split; [lia|]. split.
      * change (iterate (S (S j)) i step st)
          with (s1' <- step i st ;; iterate (S j) (i + 1)%Z step s1').
        rewrite E1. exact Hs2.
      * simpl main_loop. fold step. rewrite E1. simpl. rewrite G1. exact Hm.
Qed.

End MainLoop.

Lemma exit_guard_not_normal x : exit_guard x = negb (isnormal x).
Proof.
  unfold exit_guard. destruct (isnormal x) eqn:E; simpl.
  - rewrite orb_false_r. rewrite isnormal_spec in E. rewrite eqb_spec.
    change (Prim2SF neg_infinity) with (S754_infinity true).
    destruct (Prim2SF x) as [s|s| |s m e]; try destruct s;
      try discriminate; reflexivity.
  - apply orb_true_r.
Qed.

Lemma run_steps_inv {libm : Libm} {header : Header} x data n w st :
  run_steps x data n = Some (w, st) ->
  exists p,
    unwrap x = Some p
    /\ wiener_buffers p data = Some w
    /\ iterate n 1
         (ll_obs_step p data w (dt data / of_int (M_sim data))
            (sqrt (dt data / of_int (M_sim data))))
         (initial_state data) = Some st.
Proof.
  unfold run_steps. intros H.
  destruct (unwrap x) as [p|]; simpl in H; [|discriminate].
  destruct (wiener_buffers p data) as [w'|] eqn:Hw; simpl in H; [|discriminate].
  destruct (iterate n 1 _ _) as [st''|] eqn:E; simpl in H; [|discriminate].
  injection H as -> ->. exists p. split; [reflexivity|].
  split; [exact Hw|exact E].
Qed.

Lemma run_steps_intro {libm : Libm} {header : Header} x data n p w st :
  unwrap x = Some p ->
  wiener_buffers p data = Some w ->
  iterate n 1
    (ll_obs_step p data w (dt data / of_int (M_sim data))
       (sqrt (dt data / of_int (M_sim data))))
    (initial_state data) = Some st ->
  run_steps x data n = Some (w, st).
Proof.
  intros Hp Hw Hit. unfold run_steps. rewrite Hp. simpl. rewrite Hw. simpl.
  rewrite Hit. reflexivity.
Qed.

(** The evaluator with the macro defined: it returns [max_double] at
    the first observation step whose accumulated log-likelihood trips
    the guard, leaving the buffers as that step left them. *)
Lemma early_exit_at_first_guard {libm : Libm} {header : Header}
    x grad data k w st' :
  (Z.of_nat k + 1 < N_obs data)%Z ->
  run_steps x data (S k) = Some (w, st') ->
  exit_guard (ll st') = true ->
  (forall m w' s, (1 <= m <= k)%nat -> run_steps x data m = Some (w', s) ->
     exit_guard (ll s) = false) ->
  simulated_ll_joint true x grad data
  = Some (max_double, write_back data w (ens st')).
Proof.
  intros HN Hrun Hg Hfirst.
  destruct (run_steps_inv _ _ _ _ _ Hrun) as [p [Hp [Hw Hit]]].
  unfold simulated_ll_joint. rewrite Hp. simpl bind. rewrite Hw. simpl bind.
  destruct (Z.ltb_spec (N_obs data) 1); [lia|].
  rewrite (main_loop_exit_first p data w _ _ (Z.to_nat (N_obs data - 1)) k 1
             (initial_state data) st'); [reflexivity|lia|exact Hit|exact Hg|].
  intros m s Hm Hs. apply (Hfirst m w s Hm).
  apply (run_steps_intro x data m p w s Hp Hw Hs).
Qed.

(** C4.  With [INFINITY_CHECK] defined, an accumulated log-likelihood
    that is infinite or NaN after observation step [k + 1] makes the
    evaluator return [max_double], from that step or from an earlier
    one; when no earlier step tripped the guard it returns from step
    [k + 1] itself, the buffers being those that step left, so nothing
    is simulated after it.  Without the macro every step runs and the
    result is minus the accumulated log-likelihood. *)
Theorem infinity_check_short_circuit :
  forall (libm : Libm) (header : Header) (x grad : list double)
         (data : WrapperSimulatedJoint),
    (forall (k : nat) (w : Wiener) (st' : LoopState),
       (Z.of_nat k + 1 < N_obs data)%Z ->
       run_steps x data (S k) = Some (w, st') ->
       is_finite (ll st') = false ->
       (exists j st'',
          (j <= k)%nat
          /\ run_steps x data (S j) = Some (w, st'')
          /\ simulated_ll_joint true x grad data
             = Some (max_double, write_back data w (ens st'')))
       /\ ((forall m w' s, (1 <= m <= k)%nat ->
              run_steps x data m = Some (w', s) ->
              exit_guard (ll s) = false) ->
           simulated_ll_joint true x grad data
           = Some (max_double, write_back data w (ens st'))))
    /\ ((1 <= N_obs data)%Z ->
        simulated_ll_joint false x grad data
        = (r <- run_steps x data (Z.to_nat (N_obs data - 1)) ;;
           Some (- ll (snd r), write_back data (fst r) (ens (snd r))))).
Proof.
  intros libm header x grad data. split.
  - intros k w st' HN Hrun Hnf.
    assert (Hg : exit_guard (ll st') = true).
    { rewrite exit_guard_not_normal, not_finite_not_normal by exact Hnf.
      reflexivity. }
    split.
    + destruct (run_steps_inv _ _ _ _ _ Hrun) as [p [Hp [Hw Hit]]].
      destruct (main_loop_exit_by p data w (dt data / of_int (M_sim data))
                  (sqrt (dt data / of_int (M_sim data)))
                  (Z.to_nat (N_obs data - 1)) k 1
                  (initial_state data) st') as [j [s2 [Hj [Hs2 Hm]]]];
        [lia|exact Hit|exact Hg|].
      exists j, s2. split; [exact Hj|]. split.
      * apply (run_steps_intro x data (S j) p w s2 Hp Hw Hs2).
      * unfold simulated_ll_joint. rewrite Hp. simpl bind. rewrite Hw.
        simpl bind. destruct (Z.ltb_spec (N_obs data) 1); [lia|].
        rewrite Hm. reflexivity.
    + intros Hfirst.
      apply (early_exit_at_first_guard x grad data k w st'); assumption.
  - intros HN. unfold simulated_ll_joint, run_steps.
    destruct (unwrap x) as [p|]; simpl bind; [|reflexivity].
    destruct (wiener_buffers p data) as [w|]; simpl bind; [|reflexivity].
    destruct (Z.ltb_spec (N_obs data) 1); [lia|].
    rewrite main_loop_unguarded.
    destruct (iterate _ _ _ _) as [st|]; reflexivity.
Qed.

Lemma infinity_check_short_circuit_witness :
  option_map fst
    (@simulated_ll_joint libm_linear header_population true small_x []
       single_member_data)
  = Some (@max_double header_population).
Proof.
  pose (r := after_first_step libm_linear header_population small_x
               single_member_data).
  destruct (infinity_check_short_circuit libm_linear header_population
              small_x [] single_member_data) as [H _].
  destruct (H 0%nat (fst r) (snd r)) as [_ H2];
    [reflexivity|reflexivity|reflexivity|].
  rewrite H2; [reflexivity|].
  intros m w' s Hm. lia.
Defined.

(** C10.  With [INFINITY_CHECK] defined, an accumulated log-likelihood
    that is zero or subnormal after an observation step, a finite
    value, trips the guard as well: at the first such step the
    evaluator returns [max_double] and does not go on. *)
Theorem zero_accumulator_returns_sentinel :
  forall (libm : Libm) (header : Header) (x grad : list double)
         (data : WrapperSimulatedJoint) (k : nat) (w : Wiener)
         (st' : LoopState),
    (Z.of_nat k + 1 < N_obs data)%Z ->
    run_steps x data (S k) = Some (w, st') ->
    zero_or_subnormal (ll st') = true ->
    (forall m w' s, (1 <= m <= k)%nat ->
       run_steps x data m = Some (w', s) -> exit_guard (ll s) = false) ->
    is_finite (ll st') = true
    /\ simulated_ll_joint true x grad data
       = Some (max_double, write_back data w (ens st')).
Proof.
  intros libm header x grad data k w st' HN Hrun Hz Hfirst. split.
  - apply zero_or_subnormal_is_finite, Hz.
  - apply (early_exit_at_first_guard x grad data k w st'); try assumption.
    rewrite exit_guard_not_normal, zero_or_subnormal_not_normal by exact Hz.
    reflexivity.
Qed.

Lemma zero_accumulator_returns_sentinel_witness :
  option_map fst
    (@simulated_ll_joint libm_flat header_population true small_x []
       small_data)
  = Some (@max_double header_population).
Proof.
  pose (r := after_first_step libm_flat header_population small_x small_data).
  destruct (zero_accumulator_returns_sentinel libm_flat header_population
              small_x [] small_data 0%nat (fst r) (snd r)) as [_ H2];
    [reflexivity|reflexivity|reflexivity| |].
  - intros m w' s Hm. lia.
  - rewrite H2. reflexivity.
Defined.

End Properties.

(** ** Further properties of the simulator *)

Module SimulatorFacts.
Import Double NPSMLE DoubleFacts LoopFacts Examples.
Local Open Scope float_scope.

Lemma iterate_succ {T} (body : Z -> T -> option T) n i s :
  iterate (S n) i body s = (s1 <- body i s ;; iterate n (i + 1)%Z body s1).
Proof. reflexivity. Qed.

Lemma iterate_snoc {T} (body : Z -> T -> option T) n i s :
  iterate (S n) i body s
  = (s' <- iterate n i body s ;; body (i + Z.of_nat n)%Z s').
Proof.
  revert i s. induction n as [|n IH]; intros i s.
  - simpl. rewrite Z.add_0_r. destruct (body i s); reflexivity.
  - rewrite (iterate_succ body (S n)), (iterate_succ body n).
    destruct (body i s) as [s1|]; cbn [bind]; [|reflexivity].
    rewrite IH. replace (i + 1 + Z.of_nat n)%Z with (i + Z.of_nat (S n))%Z
      by lia.
    reflexivity.
Qed.

Lemma skip_draws_add {G} (normal : G -> double * G) a b g :
  skip_draws normal (a + b) g = skip_draws normal b (skip_draws normal a g).
Proof.
  revert g. induction a as [|a IH]; intros g; simpl.
  - reflexivity.
  - apply IH.
Qed.

Section Simulator.

Context {G : Type} (normal : G -> double * G) (sentiment : array)
  (p : JointParameters) (delta sqrt_delta : double).

Lemma sim_substep_generator i st :
  s_generator (sim_substep normal sentiment p delta sqrt_delta i st)
  = skip_draws normal 2 (s_generator st).
Proof.
  unfold sim_substep. simpl skip_draws.
  destruct (normal (s_generator st)) as [wv g1]. cbn [snd].
  destruct (normal g1) as [z g2]. reflexivity.
Qed.

Lemma sim_substep_other i st l :
  l <> i ->
  s_price (sim_substep normal sentiment p delta sqrt_delta i st) l
  = s_price st l
  /\ s_volatility (sim_substep normal sentiment p delta sqrt_delta i st) l
     = s_volatility st l.
Proof.
  intros Hl. unfold sim_substep.
  destruct (normal (s_generator st)) as [wv g1].
  destruct (normal g1) as [z g2]. cbn [s_price s_volatility].
  rewrite !store_other by exact Hl. split; reflexivity.
Qed.

Lemma sim_obs_step_defined M_obs i st :
  (0 <= M_obs)%Z ->
  sim_obs_step normal sentiment p delta sqrt_delta M_obs i st
  = Some (sub_steps normal sentiment p delta sqrt_delta (Z.to_nat M_obs) i
            (copy_forward i st)).
Proof.
  intros HM. unfold sim_obs_step. rewrite for_ne_total by exact HM.
  rewrite Z.sub_0_r. reflexivity.
Qed.

Lemma sim_obs_step_undefined M_obs i st :
  (M_obs < 0)%Z ->
  sim_obs_step normal sentiment p delta sqrt_delta M_obs i st = None.
Proof. intros HM. apply for_ne_undefined, HM. Qed.

Lemma sub_steps_other n i st l :
  l <> i ->
  s_price (sub_steps normal sentiment p delta sqrt_delta n i st) l = s_price st l
  /\ s_volatility (sub_steps normal sentiment p delta sqrt_delta n i st) l
     = s_volatility st l.
Proof.
  intros Hl. unfold sub_steps.
  apply (run_invariant (fun _ a =>
    s_price a l = s_price st l /\ s_volatility a l = s_volatility st l)).
  - split; reflexivity.
  - intros t a _ [A B].
    destruct (sim_substep_other i a l Hl) as [C D]. split; congruence.
Qed.

Lemma sub_steps_generator n i st :
  s_generator (sub_steps normal sentiment p delta sqrt_delta n i st)
  = skip_draws normal (2 * n) (s_generator st).
Proof.
  unfold sub_steps.
  pose (P := fun (t : Z) (a : SimState G) =>
    (0 <= t)%Z /\
    s_generator a = skip_draws normal (2 * Z.to_nat t) (s_generator st)).
  assert (H : P (0 + Z.of_nat n)%Z
    (run n 0 (fun _ a => sim_substep normal sentiment p delta sqrt_delta i a)
       st)).
  { apply run_invariant.
    - split; [lia|reflexivity].
    - intros t a Ht [Ht0 Ha]. split; [lia|].
      rewrite sim_substep_generator, Ha.
      replace (2 * Z.to_nat (t + 1))%nat with (2 * Z.to_nat t + 2)%nat by lia.
      rewrite skip_draws_add. reflexivity. }
  destruct H as [_ H]. rewrite H. f_equal. lia.
Qed.

Lemma copy_forward_other i (st : SimState G) l :
  l <> i ->
  s_price (copy_forward i st) l = s_price st l
  /\ s_volatility (copy_forward i st) l = s_volatility st l.
Proof.
  intros Hl. unfold copy_forward. cbn [s_price s_volatility].
  rewrite !store_other by exact Hl. split; reflexivity.
Qed.

(** One observation step writes cell [i] only and draws [2 * M_obs]
    numbers. *)
Lemma sim_obs_step_effect M_obs i st st' :
  sim_obs_step normal sentiment p delta sqrt_delta M_obs i st = Some st' ->
  (0 <= M_obs)%Z
  /\ s_generator st' = skip_draws normal (2 * Z.to_nat M_obs) (s_generator st)
  /\ forall l, l <> i ->
       s_price st' l = s_price st l /\ s_volatility st' l = s_volatility st l.
Proof.
  intros H. destruct (Z.lt_ge_cases M_obs 0) as [HM|HM].
  - rewrite sim_obs_step_undefined in H by exact HM. discriminate.
  - rewrite sim_obs_step_defined in H by exact HM. injection H as <-.
    split; [exact HM|]. split.
    + rewrite sub_steps_generator. reflexivity.
    + intros l Hl.
      destruct (sub_steps_other (Z.to_nat M_obs) i (copy_forward i st) l Hl)
        as [A B].
      destruct (copy_forward_other i st l Hl) as [C D]. split; congruence.
Qed.

End Simulator.

Lemma iterate_some_invariant {T} (P : Z -> T -> Prop)
    (body : Z -> T -> option T) n i s s' :
  P i s ->
  (forall t a b, (i <= t < i + Z.of_nat n)%Z -> P t a -> body t a = Some b ->
     P (t + 1)%Z b) ->
  iterate n i body s = Some s' ->
  P (i + Z.of_nat n)%Z s'.
Proof.
  revert i s. induction n as [|n IH]; intros i s H0 Hstep Hit.
  - simpl in Hit. injection Hit as <-. rewrite Z.add_0_r. exact H0.
  - rewrite iterate_succ in Hit.
    destruct (body i s) as [s1|] eqn:E; cbn [bind] in Hit; [|discriminate].
    replace (i + Z.of_nat (S n))%Z with (i + 1 + Z.of_nat n)%Z by lia.
    apply (IH (i + 1)%Z s1).
    + apply (Hstep i s s1); [lia|exact H0|exact E].
    + intros t a b Ht. apply Hstep. lia.
    + exact Hit.
Qed.

Lemma simulate_unfold {G} (normal : G -> double * G) price volatility
    sentiment p dt N_obs M_obs p0 v0 W_p0 W_v0 g st :
  simulate_joint_process normal price volatility sentiment p dt N_obs M_obs
    p0 v0 W_p0 W_v0 g = Some st ->
  (1 <= N_obs)%Z
  /\ iterate (Z.to_nat (N_obs - 1)) 1
       (sim_obs_step normal sentiment p (dt / of_int M_obs)
          (sqrt (dt / of_int M_obs)) M_obs)
       {| s_price := store price 0 p0; s_volatility := store volatility 0 v0;
          s_W_p := W_p0; s_W_v := W_v0; s_generator := g |} = Some st.
Proof.
  unfold simulate_joint_process. intros H.
  destruct (Z.lt_ge_cases N_obs 1) as [HN|HN].
  - rewrite for_ne_undefined in H by exact HN. discriminate.
  - rewrite for_ne_iterate in H by exact HN. split; assumption.
Qed.

(** X1.  The simulator is defined exactly when [N_obs >= 1] and, if any
    observation is produced, [M_obs >= 0]; otherwise one of its loops
    runs off its bound. *)
Theorem simulator_defined_iff :
  forall (G : Type) (normal : G -> double * G)
         (price volatility sentiment : array) (p : JointParameters)
         (dt : double) (N_obs M_obs : Z) (p0 v0 W_p0 W_v0 : double) (g : G),
    (exists st,
       simulate_joint_process normal price volatility sentiment p dt
         N_obs M_obs p0 v0 W_p0 W_v0 g = Some st)
    <-> ((1 <= N_obs)%Z /\ (N_obs = 1%Z \/ (0 <= M_obs)%Z)).
Proof.
  intros G normal price volatility sentiment p dt N_obs M_obs p0 v0
    W_p0 W_v0 g. split.
  - intros [st H]. apply simulate_unfold in H. destruct H as [HN H].
    split; [exact HN|].
    destruct (Z.eq_dec N_obs 1) as [|Hne]; [left; assumption|right].
    destruct (Z.to_nat (N_obs - 1)) as [|n] eqn:En; [lia|].
    rewrite iterate_succ in H.
    destruct (sim_obs_step _ _ _ _ _ M_obs 1 _) as [s1|] eqn:E;
      cbn [bind] in H; [|discriminate].
    apply sim_obs_step_effect in E. apply E.
  - intros [HN HM]. unfold simulate_joint_process.
    rewrite for_ne_iterate by exact HN.
    destruct HM as [->|HM].
    + simpl. eexists. reflexivity.
    + destruct (iterate_invariant (fun _ _ => True)
        (sim_obs_step normal sentiment p (dt / of_int M_obs)
           (sqrt (dt / of_int M_obs)) M_obs)
        (Z.to_nat (N_obs - 1)) 1
        {| s_price := store price 0 p0; s_volatility := store volatility 0 v0;
           s_W_p := W_p0; s_W_v := W_v0; s_generator := g |})
        as [st [E _]].
      * exact I.
      * intros t a _ _. rewrite sim_obs_step_defined by exact HM.
        eexists. split; [reflexivity|exact I].
      * exists st. exact E.
Qed.

(** X2.  The simulator writes the cells [0 .. N_obs - 1] of its two output
    arrays and no other: cell 0 receives the initial state, and every
    cell below 0 or from [N_obs] on is as it was on entry. *)
Theorem simulator_writes_within_bounds :
  forall (G : Type) (normal : G -> double * G)
         (price volatility sentiment : array) (p : JointParameters)
         (dt : double) (N_obs M_obs : Z) (p0 v0 W_p0 W_v0 : double) (g : G)
         (st : SimState G),
    simulate_joint_process normal price volatility sentiment p dt
      N_obs M_obs p0 v0 W_p0 W_v0 g = Some st ->
    s_price st 0%Z = p0
    /\ s_volatility st 0%Z = v0
    /\ forall l, (l < 0 \/ N_obs <= l)%Z ->
         s_price st l = price l /\ s_volatility st l = volatility l.
Proof.
  intros G normal price volatility sentiment p dt N_obs M_obs p0 v0
    W_p0 W_v0 g st H.
  apply simulate_unfold in H. destruct H as [HN H].
  pose (P := fun (t : Z) (a : SimState G) =>
    (1 <= t)%Z /\ s_price a 0%Z = p0 /\ s_volatility a 0%Z = v0
    /\ forall l, (l < 0 \/ t <= l)%Z ->
         s_price a l = price l /\ s_volatility a l = volatility l).
  assert (HP : P (1 + Z.of_nat (Z.to_nat (N_obs - 1)))%Z st).
  { apply (iterate_some_invariant P _ _ _ _ _) with (3 := H).
    - split; [lia|]. cbn [s_price s_volatility]. rewrite !store_same.
      split; [reflexivity|]. split; [reflexivity|].
      intros l Hl. rewrite !store_other by lia. split; reflexivity.
    - intros t a b Ht (Ht1 & A0 & B0 & F) E.
      apply sim_obs_step_effect in E. destruct E as (_ & _ & Fr).
      split; [lia|].
      destruct (Fr 0%Z) as [C0 D0]; [lia|].
      split; [congruence|]. split; [congruence|].
      intros l Hl. destruct (Fr l) as [C D]; [lia|].
      destruct (F l) as [C' D']; [lia|]. split; congruence. }
  destruct HP as (_ & A0 & B0 & F).
  split; [exact A0|]. split; [exact B0|].
  intros l Hl. apply F. lia.
Qed.

Lemma simulator_writes_within_bounds_witness :
  s_price (state_of blank_state example_path) 0%Z = 100
  /\ s_volatility (state_of blank_state example_path) 0%Z = 0.25
  /\ forall l, (l < 0 \/ 3 <= l)%Z ->
       s_price (state_of blank_state example_path) l = constant 0 l
       /\ s_volatility (state_of blank_state example_path) l = constant 0 l.
Proof.
  apply (simulator_writes_within_bounds bool alternating (constant 0)
           (constant 0) (constant 0.5) uncorrelated 1 3 2 100 0.25 0 0 true
           (state_of blank_state example_path)).
  reflexivity.
Defined.

(** X3.  The simulator draws exactly two numbers per sub-step: on return the
    generator is [2 * M_obs * (N_obs - 1)] draws past its seeded
    state. *)
Theorem simulator_draw_count :
  forall (G : Type) (normal : G -> double * G)
         (price volatility sentiment : array) (p : JointParameters)
         (dt : double) (N_obs M_obs : Z) (p0 v0 W_p0 W_v0 : double) (g : G)
         (st : SimState G),
    simulate_joint_process normal price volatility sentiment p dt
      N_obs M_obs p0 v0 W_p0 W_v0 g = Some st ->
    s_generator st
    = skip_draws normal (2 * Z.to_nat M_obs * Z.to_nat (N_obs - 1)) g.
Proof.
  intros G normal price volatility sentiment p dt N_obs M_obs p0 v0
    W_p0 W_v0 g st H.
  apply simulate_unfold in H. destruct H as [HN H].
  pose (P := fun (t : Z) (a : SimState G) =>
    (1 <= t)%Z /\
    s_generator a
    = skip_draws normal (2 * Z.to_nat M_obs * Z.to_nat (t - 1)) g).
  assert (HP : P (1 + Z.of_nat (Z.to_nat (N_obs - 1)))%Z st).
  { apply (iterate_some_invariant P _ _ _ _ _) with (3 := H).
    - split; [lia|]. cbn [s_generator].
      replace (2 * Z.to_nat M_obs * Z.to_nat (1 - 1))%nat with 0%nat by lia.
      reflexivity.
    - intros t a b Ht [Ht1 Ha] E.
      apply sim_obs_step_effect in E. destruct E as (_ & Eg & _).
      split; [lia|]. rewrite Eg, Ha, <- skip_draws_add. f_equal. nia. }
  destruct HP as [_ HP]. rewrite HP. f_equal.
  replace (1 + Z.of_nat (Z.to_nat (N_obs - 1)) - 1)%Z with (N_obs - 1)%Z by lia.
  reflexivity.
Qed.

Lemma simulator_draw_count_witness :
  s_generator (state_of blank_state example_path)
  = skip_draws alternating 8 true.
Proof.
  apply (simulator_draw_count bool alternating (constant 0) (constant 0)
           (constant 0.5) uncorrelated 1 3 2 100 0.25 0 0 true
           (state_of blank_state example_path)).
  reflexivity.
Defined.

(** X4.  Without sub-steps ([M_obs = 0]) the simulator copies the initial
    state into every observation and draws nothing. *)
Theorem simulator_flat_without_substeps :
  forall (G : Type) (normal : G -> double * G)
         (price volatility sentiment : array) (p : JointParameters)
         (dt : double) (N_obs : Z) (p0 v0 W_p0 W_v0 : double) (g : G),
    (1 <= N_obs)%Z ->
    exists st,
      simulate_joint_process normal price volatility sentiment p dt
        N_obs 0 p0 v0 W_p0 W_v0 g = Some st
      /\ s_generator st = g
      /\ forall l, (0 <= l < N_obs)%Z ->
           s_price st l = p0 /\ s_volatility st l = v0.
Proof.
  intros G normal price volatility sentiment p dt N_obs p0 v0 W_p0 W_v0 g HN.
  unfold simulate_joint_process. rewrite for_ne_iterate by exact HN.
  pose (P := fun (t : Z) (a : SimState G) =>
    (1 <= t)%Z /\ s_generator a = g
    /\ forall l, (0 <= l < t)%Z -> s_price a l = p0 /\ s_volatility a l = v0).
  destruct (iterate_invariant P
    (sim_obs_step normal sentiment p (dt / of_int 0) (sqrt (dt / of_int 0)) 0)
    (Z.to_nat (N_obs - 1)) 1
    {| s_price := store price 0 p0; s_volatility := store volatility 0 v0;
       s_W_p := W_p0; s_W_v := W_v0; s_generator := g |})
    as [st [E (_ & Hg & Hst)]].
  - split; [lia|]. split; [reflexivity|].
    intros l Hl. replace l with 0%Z by lia. cbn [s_price s_volatility].
    rewrite !store_same. split; reflexivity.
  - intros t a Ht (Ht1 & Hg & Ha).
    exists (copy_forward t a). split; [reflexivity|].
    split; [lia|]. split; [exact Hg|].
    intros l Hl. unfold copy_forward. cbn [s_price s_volatility].
    destruct (Z.eq_dec l t) as [->|Hne].
    + rewrite !store_same. apply Ha. lia.
    + rewrite !store_other by exact Hne. apply Ha. lia.
  - exists st. split; [exact E|]. split; [exact Hg|].
    intros l Hl. apply Hst. lia.
Qed.

Lemma simulator_flat_without_substeps_witness :
  exists st,
    simulate_joint_process alternating (constant 0) (constant 0)
      (constant 0.5) uncorrelated 1 4 0 100 0.25 0 0 true = Some st
    /\ s_generator st = true
    /\ forall l, (0 <= l < 4)%Z ->
         s_price st l = 100 /\ s_volatility st l = 0.25.
Proof.
  apply (simulator_flat_without_substeps bool alternating (constant 0)
           (constant 0) (constant 0.5) uncorrelated 1 4 100 0.25 0 0 true).
  discriminate.
Defined.

(** X5.  Asking for one more observation leaves the earlier ones as they
    were: from the same seeded generator, the run with [N_obs + 1]
    observations is the run with [N_obs] observations followed by one
    more observation step, which writes cell [N_obs] only. *)
Theorem simulator_extends_shorter_run :
  forall (G : Type) (normal : G -> double * G)
         (price volatility sentiment : array) (p : JointParameters)
         (dt : double) (N_obs M_obs : Z) (p0 v0 W_p0 W_v0 : double) (g : G)
         (st : SimState G),
    (0 <= M_obs)%Z ->
    simulate_joint_process normal price volatility sentiment p dt
      N_obs M_obs p0 v0 W_p0 W_v0 g = Some st ->
    exists st',
      simulate_joint_process normal price volatility sentiment p dt
        (N_obs + 1) M_obs p0 v0 W_p0 W_v0 g = Some st'
      /\ sim_obs_step normal sentiment p (dt / of_int M_obs)
           (sqrt (dt / of_int M_obs)) M_obs N_obs st = Some st'
      /\ forall l, l <> N_obs ->
           s_price st' l = s_price st l
           /\ s_volatility st' l = s_volatility st l.
Proof.
  intros G normal price volatility sentiment p dt N_obs M_obs p0 v0
    W_p0 W_v0 g st HM H.
  apply simulate_unfold in H. destruct H as [HN H].
  pose (st' := sub_steps normal sentiment p (dt / of_int M_obs)
                 (sqrt (dt / of_int M_obs)) (Z.to_nat M_obs) N_obs
                 (copy_forward N_obs st)).
  assert (E : sim_obs_step normal sentiment p (dt / of_int M_obs)
                (sqrt (dt / of_int M_obs)) M_obs N_obs st = Some st')
    by (apply sim_obs_step_defined; exact HM).
  exists st'. split; [|split].
  - unfold simulate_joint_process. rewrite for_ne_iterate by lia.
    replace (Z.to_nat (N_obs + 1 - 1)) with (S (Z.to_nat (N_obs - 1))) by lia.
    rewrite iterate_snoc, H. cbn [bind].
    replace (1 + Z.of_nat (Z.to_nat (N_obs - 1)))%Z with N_obs by lia.
    exact E.
  - exact E.
  - intros l Hl. apply sim_obs_step_effect in E.
    destruct E as (_ & _ & Fr). apply Fr, Hl.
Qed.

Lemma simulator_extends_shorter_run_witness :
  exists st',
    simulate_joint_process alternating (constant 0) (constant 0)
      (constant 0.5) uncorrelated 1 (3 + 1) 2 100 0.25 0 0 true = Some st'
    /\ sim_obs_step alternating (constant 0.5) uncorrelated (1 / of_int 2)
         (sqrt (1 / of_int 2)) 2 3 (state_of blank_state example_path)
       = Some st'
    /\ forall l, l <> 3%Z ->
         s_price st' l = s_price (state_of blank_state example_path) l
         /\ s_volatility st' l
            = s_volatility (state_of blank_state example_path) l.
Proof.
  apply (simulator_extends_shorter_run bool alternating (constant 0)
           (constant 0) (constant 0.5) uncorrelated 1 3 2 100 0.25 0 0 true
           (state_of blank_state example_path)).
  - discriminate.
  - reflexivity.
Defined.

(** *** The volatility path does not depend on the price side *)

Lemma sim_substep_volatility_related {G} (normal : G -> double * G)
    sentiment p1 p2 delta sqrt_delta i (st1 st2 : SimState G) :
  gamma_v p1 = gamma_v p2 -> mu_v p1 = mu_v p2 ->
  beta_v p1 = beta_v p2 -> sigma_v p1 = sigma_v p2 ->
  (forall l, s_volatility st1 l = s_volatility st2 l) ->
  s_generator st1 = s_generator st2 ->
  (forall l,
     s_volatility (sim_substep normal sentiment p1 delta sqrt_delta i st1) l
     = s_volatility (sim_substep normal sentiment p2 delta sqrt_delta i st2) l)
  /\ s_generator (sim_substep normal sentiment p1 delta sqrt_delta i st1)
     = s_generator (sim_substep normal sentiment p2 delta sqrt_delta i st2).
Proof.
  intros Hg Hm Hb Hs Hv Hgen. unfold sim_substep. rewrite Hgen.
  destruct (normal (s_generator st2)) as [wv g1].
  destruct (normal g1) as [z g2]. cbn [s_volatility s_generator].
  split; [|reflexivity].
  intros l. unfold store. rewrite !Hv, Hg, Hm, Hb, Hs. reflexivity.
Qed.

(** X6.  In the simulator the volatility is autonomous: the volatility path
    and the generator on return are the same for any two runs that
    differ only in the price side, that is in [mu_p], [gamma_p],
    [rho_pv], the initial price, the contents of the price array and
    the initial values of the two local increments. *)
Theorem simulator_volatility_autonomous :
  forall (G : Type) (normal : G -> double * G)
         (price1 price2 volatility sentiment : array)
         (p1 p2 : JointParameters) (dt : double) (N_obs M_obs : Z)
         (p01 p02 v0 W_p1 W_v1 W_p2 W_v2 : double) (g : G),
    gamma_v p1 = gamma_v p2 -> mu_v p1 = mu_v p2 ->
    beta_v p1 = beta_v p2 -> sigma_v p1 = sigma_v p2 ->
    opt_rel (fun st1 st2 =>
               (forall l, s_volatility st1 l = s_volatility st2 l)
               /\ s_generator st1 = s_generator st2)
      (simulate_joint_process normal price1 volatility sentiment p1 dt
         N_obs M_obs p01 v0 W_p1 W_v1 g)
      (simulate_joint_process normal price2 volatility sentiment p2 dt
         N_obs M_obs p02 v0 W_p2 W_v2 g).
Proof.
  intros G normal price1 price2 volatility sentiment p1 p2 dt N_obs M_obs
    p01 p02 v0 W_p1 W_v1 W_p2 W_v2 g Hg Hm Hb Hs.
  unfold simulate_joint_process.
  destruct (Z.lt_ge_cases N_obs 1) as [HN|HN].
  - rewrite !for_ne_undefined by exact HN. exact I.
  - rewrite !for_ne_iterate by exact HN.
    pose (R := fun (_ : Z) (a b : SimState G) =>
      (forall l, s_volatility a l = s_volatility b l)
      /\ s_generator a = s_generator b).
    apply (iterate_related R).
    + split; reflexivity.
    + intros t a b Ht [Hv Hgen].
      destruct (Z.lt_ge_cases M_obs 0) as [HM|HM].
      * rewrite !sim_obs_step_undefined by exact HM. exact I.
      * rewrite !sim_obs_step_defined by exact HM. simpl.
        unfold sub_steps. apply (run_related R).
        -- unfold R, copy_forward. cbn [s_volatility s_generator].
           split; [|exact Hgen]. intros l. unfold store. rewrite !Hv.
           reflexivity.
        -- intros u a' b' _ [Hv' Hgen'].
           apply sim_substep_volatility_related; assumption.
Qed.

Lemma simulator_volatility_autonomous_witness :
  opt_rel (fun st1 st2 =>
             (forall l, s_volatility st1 l = s_volatility st2 l)
             /\ s_generator st1 = s_generator st2)
    (simulate_joint_process alternating (constant 0) (constant 0)
       (constant 0.5) uncorrelated 1 3 2 100 0.25 0 0 true)
    (simulate_joint_process alternating (constant 7) (constant 0)
       (constant 0.5) other_price_side 1 3 2 40 0.25 1 1 true).
Proof.
  apply (simulator_volatility_autonomous bool alternating (constant 0)
           (constant 7) (constant 0) (constant 0.5) uncorrelated
           other_price_side 1 3 2 100 40 0.25 0 0 1 1 true);
    reflexivity.
Defined.

End SimulatorFacts.

(** ** Further properties of the evaluator *)

Module EvaluatorFacts.
Import Double NPSMLE DoubleFacts LoopFacts Examples Properties SimulatorFacts.
Local Open Scope float_scope.

Lemma isnormal_opp x : isnormal (- x) = isnormal x.
Proof.
  rewrite !isnormal_spec, opp_spec.
  destruct (Prim2SF x) as [s|s| |s m e]; try destruct s; try reflexivity;
    unfold SF64classify, SFopp, SFclassify, negb;
    destruct (Z.eqb _ prec); reflexivity.
Qed.

Lemma exit_guard_is_not_normal_aux (x : double) :
  exit_guard x = negb (isnormal x)
  /\ (exit_guard x = true <->
      is_finite x = false \/ zero_or_subnormal x = true).
Proof.
  split; [apply exit_guard_not_normal|].
  rewrite exit_guard_not_normal, isnormal_spec, zero_or_subnormal_spec,
    is_finite_spec.
  unfold SF64classify, SFclassify.
  destruct (Prim2SF x) as [s|s| |s m e]; try destruct s;
    try destruct (Z.eqb (Zpos (digits2_pos m)) prec); simpl;
    intuition congruence.
Qed.

(** X7.  The test [ll == -INFINITY] of line 143 never decides: the guard is
    true exactly when [ll] is not a normal number, that is when it is
    NaN, infinite, zero or subnormal. *)
Theorem exit_guard_is_not_normal :
  forall ll : double,
    exit_guard ll = negb (isnormal ll)
    /\ (exit_guard ll = true <->
        is_finite ll = false \/ zero_or_subnormal ll = true).
Proof. intros x. apply exit_guard_is_not_normal_aux. Qed.

Section Call.

Context {libm : Libm} {header : Header}.

Lemma simulated_ll_joint_some c x grad data v data' :
  simulated_ll_joint c x grad data = Some (v, data') ->
  exists p w e,
    unwrap x = Some p
    /\ wiener_buffers p data = Some w
    /\ (((1 <= N_obs data)%Z
         /\ main_loop p data w (dt data / of_int (M_sim data))
              (sqrt (dt data / of_int (M_sim data))) c
              (Z.to_nat (N_obs data - 1)) 1 (initial_state data)
            = Some (v, e))
        \/ ((N_obs data < 1)%Z
            /\ runaway_loop p data w (dt data / of_int (M_sim data))
                 (sqrt (dt data / of_int (M_sim data))) c int_trips 1
                 (initial_state data) = Some (v, e)))
    /\ data' = write_back data w e.
Proof.
  unfold simulated_ll_joint. intros H.
  destruct (unwrap x) as [p|]; cbn [bind] in H; [|discriminate].
  destruct (wiener_buffers p data) as [w|] eqn:Hw; cbn [bind] in H;
    [|discriminate].
  destruct (Z.ltb_spec (N_obs data) 1) as [HN|HN].
  - destruct (runaway_loop p data w _ _ c _ 1 _) as [[v' e]|] eqn:Hm;
      cbn [bind fst snd] in H; [|discriminate].
    injection H as -> <-.
    exists p, w, e. split; [reflexivity|]. split; [exact Hw|].
    split; [right; split; assumption|reflexivity].
  - destruct (main_loop p data w _ _ c _ 1 _) as [[v' e]|] eqn:Hm;
      cbn [bind fst snd] in H; [|discriminate].
    injection H as -> <-.
    exists p, w, e. split; [reflexivity|]. split; [exact Hw|].
    split; [left; split; assumption|reflexivity].
Qed.

Variables (p : JointParameters) (data : WrapperSimulatedJoint) (w : Wiener)
  (delta sqrt_delta : double).

Lemma ensemble_loop_some i e e' :
  for_ne 0 (N_sim data) (ll_member p data w delta sqrt_delta i) e = Some e' ->
  (0 <= N_sim data)%Z
  /\ forall l, (l < 0 \/ N_sim data <= l)%Z -> same_at e' e l.
Proof.
  intros H. destruct (Z.lt_ge_cases (N_sim data) 0) as [HN|HN].
  - rewrite for_ne_undefined in H by exact HN. discriminate.
  - split; [exact HN|]. intros l Hl.
    rewrite for_ne_iterate in H by exact HN.
    apply (iterate_some_invariant (fun _ a => same_at a e l) _ _ _ _ _)
      with (3 := H).
    + split; reflexivity.
    + intros t a b Ht Ha E.
      destruct (Z.lt_ge_cases (M_sim data) 0) as [HM|HM].
      * rewrite ll_member_undefined in E by exact HM. discriminate.
      * rewrite ll_member_defined in E by exact HM. injection E as <-.
        eapply same_at_trans; [apply ll_member_step_frame; lia|exact Ha].
Qed.

Lemma ll_obs_step_some i st st' :
  ll_obs_step p data w delta sqrt_delta i st = Some st' ->
  (0 <= N_sim data)%Z
  /\ for_ne 0 (N_sim data) (ll_member p data w delta sqrt_delta i) (ens st)
     = Some (ens st').
Proof.
  unfold ll_obs_step. intros H.
  destruct (for_ne 0 (N_sim data) (ll_member p data w delta sqrt_delta i)
              (ens st)) as [e|] eqn:E; cbn [bind] in H; [|discriminate].
  destruct (for_ne 0 (N_sim data) _ (kernel_sum st)) as [ks|];
    cbn [bind] in H; [|discriminate].
  injection H as <-. cbn [ens].
  split; [|reflexivity]. apply (ensemble_loop_some i (ens st) e E).
Qed.

Lemma main_loop_frame c n i st v e l :
  main_loop p data w delta sqrt_delta c n i st = Some (v, e) ->
  (l < 0 \/ N_sim data <= l)%Z ->
  same_at e (ens st) l.
Proof.
  revert i st. induction n as [|n IH]; intros i st H Hl; simpl in H.
  - injection H as _ <-. split; reflexivity.
  - destruct (ll_obs_step p data w delta sqrt_delta i st) as [st'|] eqn:E;
      cbn [bind] in H; [|discriminate].
    apply ll_obs_step_some in E. destruct E as [_ E].
    apply ensemble_loop_some in E. destruct E as [_ F].
    destruct (c && exit_guard (ll st')).
    + injection H as _ <-. apply F, Hl.
    + eapply same_at_trans; [apply (IH _ _ H Hl)|apply F, Hl].
Qed.

Lemma main_loop_checked_value n i st v e :
  main_loop p data w delta sqrt_delta true (S n) i st = Some (v, e) ->
  v = max_double \/ isnormal v = true.
Proof.
  revert i st. induction n as [|n IH]; intros i st H.
  - simpl in H.
    destruct (ll_obs_step p data w delta sqrt_delta i st) as [st'|];
      cbn [bind] in H; [|discriminate].
    destruct (exit_guard (ll st')) eqn:Hg.
    + injection H as <- _. left. reflexivity.
    + injection H as <- _. right. rewrite isnormal_opp.
      rewrite exit_guard_not_normal in Hg.
      apply negb_false_iff in Hg. exact Hg.
  - change (main_loop p data w delta sqrt_delta true (S (S n)) i st)
      with (st' <- ll_obs_step p data w delta sqrt_delta i st ;;
            if true && exit_guard (ll st') then Some (max_double, ens st')
            else main_loop p data w delta sqrt_delta true (S n) (i + 1)%Z st')
      in H.
    destruct (ll_obs_step p data w delta sqrt_delta i st) as [st'|];
      cbn [bind] in H; [|discriminate].
    destruct (exit_guard (ll st')) eqn:Hg; cbn [andb] in H.
    + injection H as <- _. left. reflexivity.
    + apply (IH _ _ H).
Qed.

Lemma runaway_loop_frame c n i st v e l :
  runaway_loop p data w delta sqrt_delta c n i st = Some (v, e) ->
  (l < 0 \/ N_sim data <= l)%Z ->
  same_at e (ens st) l.
Proof.
  revert i st. induction n as [|n IH]; intros i st H Hl.
  - discriminate.
  - rewrite runaway_loop_succ in H.
    destruct (ll_obs_step p data w delta sqrt_delta i st) as [st'|] eqn:E;
      cbn [bind] in H; [|discriminate].
    apply ll_obs_step_some in E. destruct E as [_ E].
    apply ensemble_loop_some in E. destruct E as [_ F].
    destruct (c && exit_guard (ll st')).
    + injection H as _ <-. apply F, Hl.
    + eapply same_at_trans; [apply (IH _ _ H Hl)|apply F, Hl].
Qed.

(** The loop that cannot meet its bound returns only through the early
    exit. *)
Lemma runaway_loop_value c n i st v e :
  runaway_loop p data w delta sqrt_delta c n i st = Some (v, e) ->
  c = true /\ v = max_double.
Proof.
  revert i st. induction n as [|n IH]; intros i st H.
  - discriminate.
  - rewrite runaway_loop_succ in H.
    destruct (ll_obs_step p data w delta sqrt_delta i st) as [st'|];
      cbn [bind] in H; [|discriminate].
    destruct c; cbn [andb] in H.
    + destruct (exit_guard (ll st')).
      * injection H as <- _. split; reflexivity.
      * apply (IH _ _ H).
    + apply (IH _ _ H).
Qed.

End Call.

(** X8.  On return the Wiener buffers hold, in the cells
    [0 .. N_sim * M_sim - 1], the volatility draws unchanged and the
    price draws mixed with them by the correlation [x[6]]; no other
    cell of the two buffers is written. *)
Theorem evaluator_wiener_buffers :
  forall (libm : Libm) (header : Header) (c : bool) (x grad : list double)
         (data data' : WrapperSimulatedJoint) (v : double)
         (p : JointParameters),
    simulated_ll_joint c x grad data = Some (v, data') ->
    unwrap x = Some p ->
    (forall idx, (0 <= idx < N_sim data * M_sim data)%Z ->
       wiener_volatility data' idx = random_buffer_volatility data idx
       /\ wiener_price data' idx
          = sqrt (1 - rho_pv p * rho_pv p) * random_buffer_price data idx
            + rho_pv p * random_buffer_volatility data idx)
    /\ (forall idx, (idx < 0 \/ N_sim data * M_sim data <= idx)%Z ->
          wiener_volatility data' idx = wiener_volatility data idx
          /\ wiener_price data' idx = wiener_price data idx).
Proof.
  intros libm header c x grad data data' v p H Hp.
  apply simulated_ll_joint_some in H.
  destruct H as (p' & w & e & Hp' & Hw & _ & ->).
  rewrite Hp in Hp'. injection Hp' as <-.
  apply wiener_buffers_some in Hw. destruct Hw as (_ & HW & ->).
  cbn [write_back wiener_volatility wiener_price]. split.
  - intros idx Hidx. apply fill_wiener_run. lia.
  - intros idx Hidx.
    apply (fill_wiener_frame (rho_pv p) data
             (Z.to_nat (N_sim data * M_sim data))
             {| W_p := wiener_price data; W_v := wiener_volatility data |} idx).
    lia.
Qed.

Lemma evaluator_wiener_buffers_witness :
  wiener_price
    (snd (outcome small_data
            (@simulated_ll_joint libm_linear header_population false
               [1; 100; 1; 0.25; 0.5; 0.5; 0.5] [] small_data))) 3%Z
  = sqrt (1 - 0.5 * 0.5) * 2 + 0.5 * (-0.5).
Proof.
  pose (o := outcome small_data
               (@simulated_ll_joint libm_linear header_population false
                  [1; 100; 1; 0.25; 0.5; 0.5; 0.5] [] small_data)).
  destruct (evaluator_wiener_buffers libm_linear header_population false
              [1; 100; 1; 0.25; 0.5; 0.5; 0.5] [] small_data (snd o) (fst o)
              {| mu_p := 100; gamma_p := 1; gamma_v := 1; mu_v := 0.25;
                 beta_v := 0.5; sigma_v := 0.5; rho_pv := 0.5 |})
    as [H _]; [reflexivity|reflexivity|].
  destruct (H 3%Z) as [_ Hp]; [split; [discriminate|reflexivity]|].
  exact Hp.
Defined.

(** X9.  A call writes the cells [0 .. N_sim - 1] of the two ensemble buffers
    and no other, and leaves the observed series, the sentiment, the
    innovation buffers and the grid as they were. *)
Theorem evaluator_writes_within_bounds :
  forall (libm : Libm) (header : Header) (c : bool) (x grad : list double)
         (data data' : WrapperSimulatedJoint) (v : double),
    simulated_ll_joint c x grad data = Some (v, data') ->
    (forall l, (l < 0 \/ N_sim data <= l)%Z ->
       simulated_price data' l = simulated_price data l
       /\ simulated_volatility data' l = simulated_volatility data l)
    /\ price data' = price data
    /\ volatility data' = volatility data
    /\ interpolated_sentiment data' = interpolated_sentiment data
    /\ random_buffer_price data' = random_buffer_price data
    /\ random_buffer_volatility data' = random_buffer_volatility data
    /\ (N_obs data', N_sim data', M_sim data', dt data')
       = (N_obs data, N_sim data, M_sim data, dt data).
Proof.
  intros libm header c x grad data data' v H.
  apply simulated_ll_joint_some in H.
  destruct H as (p & w & e & _ & _ & Hm & ->).
  split; [|repeat split].
  intros l Hl. destruct Hm as [[_ Hm]|[_ Hm]].
  - apply (main_loop_frame p data w _ _ c _ 1 (initial_state data) v e l
             Hm Hl).
  - apply (runaway_loop_frame p data w _ _ c _ 1 (initial_state data) v e l
             Hm Hl).
Qed.

Lemma evaluator_writes_within_bounds_witness :
  simulated_price
    (snd (outcome small_data
            (@simulated_ll_joint libm_linear header_population false
               small_x [] small_data))) 2%Z
  = simulated_price small_data 2%Z.
Proof.
  pose (o := outcome small_data
               (@simulated_ll_joint libm_linear header_population false
                  small_x [] small_data)).
  destruct (evaluator_writes_within_bounds libm_linear header_population
              false small_x [] small_data (snd o) (fst o)) as [H _];
    [reflexivity|].
  destruct (H 2%Z) as [Hp _]; [right; discriminate|].
  exact Hp.
Defined.

(** X10.  With a single observation there is no transition to score: the call
    returns [-0.0] and leaves the ensemble buffers as they were. *)
Theorem evaluator_single_observation :
  forall (libm : Libm) (header : Header) (c : bool) (x grad : list double)
         (data data' : WrapperSimulatedJoint) (v : double),
    N_obs data = 1%Z ->
    simulated_ll_joint c x grad data = Some (v, data') ->
    v = neg_zero
    /\ simulated_price data' = simulated_price data
    /\ simulated_volatility data' = simulated_volatility data.
Proof.
  intros libm header c x grad data data' v HN H.
  apply simulated_ll_joint_some in H.
  destruct H as (p & w & e & _ & _ & Hm & ->).
  destruct Hm as [[_ Hm]|[HN' _]]; [|lia].
  rewrite HN in Hm. simpl in Hm. injection Hm as <- <-.
  repeat split.
Qed.

Lemma evaluator_single_observation_witness :
  fst (outcome one_observation
         (@simulated_ll_joint libm_linear header_population true
            small_x [] one_observation)) = neg_zero.
Proof.
  pose (o := outcome one_observation
               (@simulated_ll_joint libm_linear header_population true
                  small_x [] one_observation)).
  destruct (evaluator_single_observation libm_linear header_population true
              small_x [] one_observation (snd o) (fst o)) as [H _];
    [reflexivity|reflexivity|].
  exact H.
Defined.

(** X11.  With [INFINITY_CHECK] defined, [N_obs] other than 1 and a
    [max_double] that is a normal number (as the largest finite double
    is), the value returned is a normal number: it is never NaN, an
    infinity, a zero or a subnormal number.  It is [max_double], or
    minus an accumulated log-likelihood that passed the guard. *)
Theorem checked_result_is_normal :
  forall (libm : Libm) (header : Header) (x grad : list double)
         (data data' : WrapperSimulatedJoint) (v : double),
    isnormal max_double = true ->
    N_obs data <> 1%Z ->
    simulated_ll_joint true x grad data = Some (v, data') ->
    isnormal v = true
    /\ is_finite v = true
    /\ zero_or_subnormal v = false
    /\ exit_guard v = false.
Proof.
  intros libm header x grad data data' v Hmax HN H.
  assert (Hv : isnormal v = true).
  { apply simulated_ll_joint_some in H.
    destruct H as (p & w & e & _ & _ & Hm & _).
    destruct Hm as [[HN1 Hm]|[_ Hm]].
    - replace (Z.to_nat (N_obs data - 1))
        with (S (Z.to_nat (N_obs data - 2))) in Hm by lia.
      destruct (main_loop_checked_value p data w _ _ _ _ _ _ _ Hm) as [->|Hn];
        assumption.
    - apply runaway_loop_value in Hm. destruct Hm as [_ ->]. exact Hmax. }
  split; [exact Hv|].
  destruct (exit_guard_is_not_normal_aux v) as [Hg Hiff].
  assert (Hg' : exit_guard v = false) by (rewrite Hg, Hv; reflexivity).
  split; [|split; [|exact Hg']].
  - destruct (is_finite v) eqn:Ef; [reflexivity|].
    rewrite (proj2 Hiff) in Hg' by (left; reflexivity). discriminate.
  - destruct (zero_or_subnormal v) eqn:Ez; [|reflexivity].
    rewrite (proj2 Hiff) in Hg' by (right; reflexivity). discriminate.
Qed.

Lemma checked_result_is_normal_witness :
  isnormal
    (fst (outcome small_data
            (@simulated_ll_joint libm_linear header_population true
               small_x [] small_data))) = true.
Proof.
  pose (o := outcome small_data
               (@simulated_ll_joint libm_linear header_population true
                  small_x [] small_data)).
  destruct (checked_result_is_normal libm_linear header_population
              small_x [] small_data (snd o) (fst o)) as [H _].
  - reflexivity.
  - discriminate.
  - reflexivity.
  - exact H.
Defined.

(** X12.  Within one observation step the members do not interact: member
    [j] after the [j] loop is determined by the observed state and by
    the [M_sim] Wiener increments of member [j]; the increments of the
    other members and the ensemble on entry do not matter. *)
Theorem ensemble_members_independent :
  forall (p : JointParameters) (data : WrapperSimulatedJoint)
         (w1 w2 : Wiener) (delta sqrt_delta : double) (i j : Z)
         (e1 e2 : Ensemble),
    (0 <= j < N_sim data)%Z ->
    (0 <= M_sim data)%Z ->
    wiener_agree data w1 w2 j ->
    exists r1 r2,
      for_ne 0 (N_sim data) (ll_member p data w1 delta sqrt_delta i) e1
      = Some r1
      /\ for_ne 0 (N_sim data) (ll_member p data w2 delta sqrt_delta i) e2
         = Some r2
      /\ same_at r1 r2 j.
Proof.
  intros p data w1 w2 delta sqrt_delta i j e1 e2 Hj HM Hw.
  eexists. eexists.
  split; [apply ensemble_loop_defined; lia|].
  split; [apply ensemble_loop_defined; lia|].
  eapply same_at_trans; [apply ensemble_loop_members; lia|].
  eapply same_at_trans;
    [|apply same_at_sym, ensemble_loop_members; lia].
  apply member_path_at; [split; reflexivity|exact Hw].
Qed.

Lemma ensemble_members_independent_witness :
  exists r1 r2,
    for_ne 0 2 (ll_member uncorrelated small_data small_wiener 0.5 0.5 1)
      {| ens_price := constant 7; ens_volatility := constant 9 |} = Some r1
    /\ for_ne 0 2
         (ll_member uncorrelated small_data other_second_member 0.5 0.5 1)
         {| ens_price := constant 1; ens_volatility := constant 2 |} = Some r2
    /\ same_at r1 r2 0.
Proof.
  apply (ensemble_members_independent uncorrelated small_data small_wiener
           other_second_member 0.5 0.5 1%Z 0%Z
           {| ens_price := constant 7; ens_volatility := constant 9 |}
           {| ens_price := constant 1; ens_volatility := constant 2 |}).
  - split; [discriminate|reflexivity].
  - discriminate.
  - intros k Hk.
    assert (Hk' : k = 0%Z \/ k = 1%Z) by (cbn in Hk; lia).
    destruct Hk' as [->| ->]; split; reflexivity.
Defined.

(** X14.  Without sub-steps ([M_sim = 0]) an observation step leaves every
    member on the state observed one step earlier. *)
Theorem ensemble_without_substeps :
  forall (libm : Libm) (header : Header) (p : JointParameters)
         (data : WrapperSimulatedJoint) (w : Wiener)
         (delta sqrt_delta : double) (i : Z) (st st' : LoopState),
    M_sim data = 0%Z ->
    ll_obs_step p data w delta sqrt_delta i st = Some st' ->
    forall j, (0 <= j < N_sim data)%Z ->
      ens_price (ens st') j = price data (i - 1)%Z
      /\ ens_volatility (ens st') j = volatility data (i - 1)%Z.
Proof.
  intros libm header p data w delta sqrt_delta i st st' HM H j Hj.
  apply ll_obs_step_some in H. destruct H as [HN H].
  rewrite ensemble_loop_defined in H by lia. injection H as H.
  pose proof (ensemble_loop_members p data delta sqrt_delta w i (ens st)
                (Z.to_nat (N_sim data)) j ltac:(lia)) as Hs.
  rewrite H in Hs. unfold member_path in Hs. rewrite HM in Hs.
  exact Hs.
Qed.

Lemma ensemble_without_substeps_witness :
  ens_price
    (ens (snd (after_first_step libm_linear header_population small_x
                 no_substeps))) 1%Z
  = price no_substeps (1 - 1)%Z.
Proof.
  pose (r := after_first_step libm_linear header_population small_x
               no_substeps).
  destruct (ensemble_without_substeps libm_linear header_population
              uncorrelated no_substeps (fst r) (1 / of_int 0)
              (sqrt (1 / of_int 0)) 1%Z (initial_state no_substeps) (snd r))
    with (j := 1%Z) as [H _].
  - reflexivity.
  - reflexivity.
  - split; [discriminate|reflexivity].
  - exact H.
Defined.

(** *** What a run of the main loop leaves in the ensemble *)

Section LastStep.

Context {libm : Libm} {header : Header}.

Lemma ensemble_loop_some_members p data w delta sqrt_delta i e e' j :
  for_ne 0 (N_sim data) (ll_member p data w delta sqrt_delta i) e = Some e' ->
  (0 <= j < N_sim data)%Z ->
  (0 <= M_sim data)%Z
  /\ same_at e'
       (member_path p data w delta sqrt_delta i j (observed_ensemble data i)) j.
Proof.
  intros H Hj. destruct (Z.lt_ge_cases (M_sim data) 0) as [HM|HM].
  - rewrite for_ne_iterate in H by lia.
    replace (Z.to_nat (N_sim data - 0)) with (S (Z.to_nat (N_sim data - 1)))
      in H by lia.
    rewrite iterate_succ, ll_member_undefined in H by exact HM.
    discriminate.
  - split; [exact HM|].
    rewrite ensemble_loop_defined in H by lia. injection H as <-.
    apply ensemble_loop_members. lia.
Qed.

(** The state after [k + 1] trips comes from the state after [k] trips
    by the observation step [k + 1]. *)
Lemma run_steps_last x data k w st' :
  run_steps x data (S k) = Some (w, st') ->
  exists p st,
    unwrap x = Some p
    /\ run_steps x data k = Some (w, st)
    /\ ll_obs_step p data w (dt data / of_int (M_sim data))
         (sqrt (dt data / of_int (M_sim data))) (Z.of_nat (S k)) st = Some st'.
Proof.
  intros H. apply run_steps_inv in H. destruct H as (p & Hp & Hw & Hit).
  rewrite iterate_snoc in Hit.
  destruct (iterate k 1 _ (initial_state data)) as [st|] eqn:Ek;
    cbn [bind] in Hit; [|discriminate].
  exists p, st. split; [exact Hp|]. split.
  - apply (run_steps_intro x data k p w st Hp Hw Ek).
  - replace (Z.of_nat (S k)) with (1 + Z.of_nat k)%Z by lia. exact Hit.
Qed.

(** The call without the macro returns what [N_obs - 1] trips leave. *)
Lemma unguarded_call_last x grad data v data' :
  (2 <= N_obs data)%Z ->
  simulated_ll_joint false x grad data = Some (v, data') ->
  exists w st',
    run_steps x data (S (Z.to_nat (N_obs data - 2))) = Some (w, st')
    /\ v = (- ll st')%float
    /\ data' = write_back data w (ens st').
Proof.
  intros HN H. apply simulated_ll_joint_some in H.
  destruct H as (p & w & e & Hp & Hw & Hm & ->).
  destruct Hm as [[_ Hm]|[HN' _]]; [|lia].
  rewrite main_loop_unguarded in Hm.
  replace (Z.to_nat (N_obs data - 1)) with (S (Z.to_nat (N_obs data - 2)))
    in Hm by lia.
  destruct (iterate (S (Z.to_nat (N_obs data - 2))) 1 _ (initial_state data))
    as [st'|] eqn:E; cbn [bind] in Hm; [|discriminate].
  injection Hm as <- <-.
  exists w, st'. split; [|split; reflexivity].
  apply (run_steps_intro x data _ p w st' Hp Hw E).
Qed.

Lemma main_loop_stops p data w delta sqrt_delta c n i st v e :
  main_loop p data w delta sqrt_delta c (S n) i st = Some (v, e) ->
  exists k st',
    (k <= n)%nat
    /\ iterate (S k) i (ll_obs_step p data w delta sqrt_delta) st = Some st'
    /\ e = ens st'.
Proof.
  revert i st. induction n as [|n IH]; intros i st H;
    rewrite main_loop_succ in H;
    destruct (ll_obs_step p data w delta sqrt_delta i st) as [s1|] eqn:E1;
    cbn [bind] in H; try discriminate.
  - exists 0%nat, s1. split; [lia|]. split.
    + rewrite iterate_succ, E1. reflexivity.
    + destruct (c && exit_guard (ll s1)); simpl in H; injection H as _ <-;
        reflexivity.
  - destruct (c && exit_guard (ll s1)).
    + exists 0%nat, s1. split; [lia|]. split.
      * rewrite iterate_succ, E1. reflexivity.
      * injection H as _ <-. reflexivity.
    + destruct (IH _ _ H) as (k & st' & Hk & Hit & He).
      exists (S k), st'. split; [lia|]. split; [|exact He].
      rewrite iterate_succ, E1. exact Hit.
Qed.

Lemma runaway_loop_stops p data w delta sqrt_delta c n i st v e :
  runaway_loop p data w delta sqrt_delta c n i st = Some (v, e) ->
  exists k st',
    (k < n)%nat
    /\ iterate (S k) i (ll_obs_step p data w delta sqrt_delta) st = Some st'
    /\ e = ens st'.
Proof.
  revert i st. induction n as [|n IH]; intros i st H; [discriminate|].
  rewrite runaway_loop_succ in H.
  destruct (ll_obs_step p data w delta sqrt_delta i st) as [s1|] eqn:E1;
    cbn [bind] in H; [|discriminate].
  destruct (c && exit_guard (ll s1)).
  - exists 0%nat, s1. split; [lia|]. split.
    + rewrite iterate_succ, E1. reflexivity.
    + injection H as _ <-. reflexivity.
  - destruct (IH _ _ H) as (k & st' & Hk & Hit & He).
    exists (S k), st'. split; [lia|]. split; [|exact He].
    rewrite iterate_succ, E1. exact Hit.
Qed.

(** A call that scores a transition returns what some observation step
    of the run left. *)
Lemma call_stops_after_a_step c x grad data v data' :
  N_obs data <> 1%Z ->
  simulated_ll_joint c x grad data = Some (v, data') ->
  exists k w st',
    ((1 <= N_obs data)%Z -> (Z.of_nat (S k) <= N_obs data - 1)%Z)
    /\ run_steps x data (S k) = Some (w, st')
    /\ data' = write_back data w (ens st').
Proof.
  intros HN H. apply simulated_ll_joint_some in H.
  destruct H as (p & w & e & Hp & Hw & Hm & ->).
  destruct Hm as [[HN1 Hm]|[HN1 Hm]].
  - replace (Z.to_nat (N_obs data - 1)) with (S (Z.to_nat (N_obs data - 2)))
      in Hm by lia.
    apply main_loop_stops in Hm. destruct Hm as (k & st' & Hk & Hit & ->).
    exists k, w, st'. split; [lia|]. split; [|reflexivity].
    apply (run_steps_intro x data _ p w st' Hp Hw Hit).
  - apply runaway_loop_stops in Hm. destruct Hm as (k & st' & _ & Hit & ->).
    exists k, w, st'. split; [lia|]. split; [|reflexivity].
    apply (run_steps_intro x data _ p w st' Hp Hw Hit).
Qed.

Lemma wiener_eta (w : Wiener) : {| W_p := W_p w; W_v := W_v w |} = w.
Proof. destruct w. reflexivity. Qed.

End LastStep.

(** C7.  Every observation step of a run of the evaluator rebuilds the
    ensemble from the observed state.  Step [i] of the main loop runs
    the [j] loop on the ensemble the step before left; each trip first
    stores [price[i-1]] and [volatility[i-1]] in member [j]; and after
    the step every member [0 <= j < N_sim] is what the [M_sim]
    sub-steps give from an ensemble holding [price[i-1]] and
    [volatility[i-1]] everywhere, so nothing of the ensemble of the
    step before is left.  In particular the buffers a call without the
    macro leaves are the propagation of [price[N_obs-2]] and
    [volatility[N_obs-2]], and the buffers any call leaves are the
    propagation of the state observed before the step it returned
    from. *)
Theorem ensemble_reset_every_step :
  forall (libm : Libm) (header : Header) (x : list double)
         (data : WrapperSimulatedJoint),
    (forall (k : nat) (w : Wiener) (st' : LoopState),
       run_steps x data (S k) = Some (w, st') ->
       let i := Z.of_nat (S k) in
       let delta := dt data / of_int (M_sim data) in
       exists p st,
         unwrap x = Some p
         /\ run_steps x data k = Some (w, st)
         /\ ll_obs_step p data w delta (sqrt delta) i st = Some st'
         /\ for_ne 0 (N_sim data) (ll_member p data w delta (sqrt delta) i)
              (ens st) = Some (ens st')
         /\ (forall j e,
               ll_member p data w delta (sqrt delta) i j e
               = for_ne 0 (M_sim data)
                   (fun k e =>
                      Some (ll_substep p data w delta (sqrt delta) i j k e))
                   (reset_member data i j e)
               /\ ens_price (reset_member data i j e) j
                  = price data (i - 1)%Z
               /\ ens_volatility (reset_member data i j e) j
                  = volatility data (i - 1)%Z)
         /\ (forall j, (0 <= j < N_sim data)%Z ->
               same_at (ens st')
                 (run (Z.to_nat (M_sim data)) 0
                    (ll_substep p data w delta (sqrt delta) i j)
                    (observed_ensemble data i)) j))
    /\ (forall (grad : list double) (v : double)
               (data' : WrapperSimulatedJoint) (p : JointParameters) (j : Z),
          (2 <= N_obs data)%Z ->
          unwrap x = Some p ->
          simulated_ll_joint false x grad data = Some (v, data') ->
          (0 <= j < N_sim data)%Z ->
          let i := (N_obs data - 1)%Z in
          let delta := dt data / of_int (M_sim data) in
          let w := {| W_p := wiener_price data';
                      W_v := wiener_volatility data' |} in
          let e := run (Z.to_nat (M_sim data)) 0
                     (ll_substep p data w delta (sqrt delta) i j)
                     (observed_ensemble data i) in
          simulated_price data' j = ens_price e j
          /\ simulated_volatility data' j = ens_volatility e j)
    /\ (forall (c : bool) (grad : list double) (v : double)
               (data' : WrapperSimulatedJoint) (p : JointParameters),
          N_obs data <> 1%Z ->
          unwrap x = Some p ->
          simulated_ll_joint c x grad data = Some (v, data') ->
          exists i,
            (1 <= i)%Z
            /\ ((1 <= N_obs data)%Z -> (i <= N_obs data - 1)%Z)
            /\ forall j, (0 <= j < N_sim data)%Z ->
                 let delta := dt data / of_int (M_sim data) in
                 let w := {| W_p := wiener_price data';
                             W_v := wiener_volatility data' |} in
                 let e := run (Z.to_nat (M_sim data)) 0
                            (ll_substep p data w delta (sqrt delta) i j)
                            (observed_ensemble data i) in
                 simulated_price data' j = ens_price e j
                 /\ simulated_volatility data' j = ens_volatility e j).
Proof.
  intros libm header x data. split; [|split].
  - intros k w st' H i delta.
    destruct (run_steps_last x data k w st' H) as (p & st & Hp & Hk & Hs).
    exists p, st. split; [exact Hp|]. split; [exact Hk|].
    split; [exact Hs|].
    pose proof (ll_obs_step_some p data w delta (sqrt delta) i st st' Hs)
      as [_ He].
    split; [exact He|]. split.
    + intros j e. unfold reset_member. cbn [ens_price ens_volatility].
      rewrite !store_same. repeat split.
    + intros j Hj.
      apply (ensemble_loop_some_members p data w delta (sqrt delta) i
               (ens st) (ens st') j He Hj).
  - intros grad v data' p j HN Hp Hcall Hj i delta w e.
    destruct (unguarded_call_last x grad data v data' HN Hcall)
      as (w0 & st' & Hrun & _ & ->).
    destruct (run_steps_last x data _ w0 st' Hrun) as (p' & st & Hp' & _ & Hs).
    rewrite Hp in Hp'. injection Hp' as <-.
    apply ll_obs_step_some in Hs. destruct Hs as [_ He].
    replace (Z.of_nat (S (Z.to_nat (N_obs data - 2)))) with i in He
      by (unfold i; lia).
    subst e w. cbn [write_back wiener_price wiener_volatility
      simulated_price simulated_volatility]. rewrite wiener_eta.
    apply (ensemble_loop_some_members p data w0 delta (sqrt delta) i
             (ens st) (ens st') j He Hj).
  - intros c grad v data' p HN Hp Hcall.
    destruct (call_stops_after_a_step c x grad data v data' HN Hcall)
      as (k & w0 & st' & Hk & Hrun & ->).
    exists (Z.of_nat (S k)). split; [lia|]. split; [exact Hk|].
    intros j Hj delta w e.
    destruct (run_steps_last x data _ w0 st' Hrun) as (p' & st & Hp' & _ & Hs).
    rewrite Hp in Hp'. injection Hp' as <-.
    apply ll_obs_step_some in Hs. destruct Hs as [_ He].
    subst e w. cbn [write_back wiener_price wiener_volatility
      simulated_price simulated_volatility]. rewrite wiener_eta.
    apply (ensemble_loop_some_members p data w0 delta (sqrt delta)
             (Z.of_nat (S k)) (ens st) (ens st') j He Hj).
Qed.

Lemma ensemble_reset_every_step_witness :
  simulated_price
    (snd (outcome small_data
            (@simulated_ll_joint libm_linear header_population false
               small_x [] small_data))) 1%Z
  = ens_price
      (run 2 0
         (ll_substep uncorrelated small_data small_wiener (1 / of_int 2)
            (sqrt (1 / of_int 2)) 2 1)
         (observed_ensemble small_data 2)) 1%Z.
Proof.
  pose (o := outcome small_data
               (@simulated_ll_joint libm_linear header_population false
                  small_x [] small_data)).
  destruct (ensemble_reset_every_step libm_linear header_population small_x
              small_data) as (_ & H & _).
  destruct (H [] (fst o) (snd o) uncorrelated 1%Z) as [Hp _].
  - discriminate.
  - reflexivity.
  - reflexivity.
  - split; [discriminate|reflexivity].
  - etransitivity; [exact Hp|]. reflexivity.
Defined.

(** *** The roles of the entries of the parameter vector *)

Lemma run_steps_members {libm : Libm} {header : Header} x data k w st' p j :
  run_steps x data (S k) = Some (w, st') ->
  unwrap x = Some p ->
  (0 <= j < N_sim data)%Z ->
  (0 <= M_sim data)%Z
  /\ w = run (Z.to_nat (N_sim data * M_sim data)) 0
           (fill_wiener (rho_pv p) data)
           {| W_p := wiener_price data; W_v := wiener_volatility data |}
  /\ same_at (ens st')
       (member_path p data w (dt data / of_int (M_sim data))
          (sqrt (dt data / of_int (M_sim data))) (Z.of_nat (S k)) j
          (observed_ensemble data (Z.of_nat (S k)))) j.
Proof.
  intros Hrun Hp Hj.
  destruct (run_steps_last x data k w st' Hrun) as (p' & st & Hp' & _ & Hs).
  rewrite Hp in Hp'. injection Hp' as <-.
  apply run_steps_inv in Hrun. destruct Hrun as (p' & Hp' & Hw & _).
  rewrite Hp in Hp'. injection Hp' as <-.
  apply wiener_buffers_some in Hw. destruct Hw as (_ & _ & Hw).
  apply ll_obs_step_some in Hs. destruct Hs as [_ He].
  destruct (ensemble_loop_some_members p data w _ _ _ _ _ j He Hj) as [HM Hs].
  split; [exact HM|]. split; [exact Hw|exact Hs].
Qed.

Lemma ll_substep_formula p data w delta sqrt_delta i j k e :
  let sp := ens_price e j in
  let sv := ens_volatility e j in
  let s := interpolated_sentiment data ((i - 1) * M_sim data + k)%Z in
  let e' := ll_substep p data w delta sqrt_delta i j k e in
  ens_price e' j
  = sp + (gamma_p p * (mu_p p - sp) * delta
          + W_p w (j * M_sim data + k)%Z * (sp * sqrt (abs sv)) * sqrt_delta)
  /\ ens_volatility e' j
     = sv + (gamma_v p * (mu_v p + beta_v p * abs s - sv) * delta
             + W_v w (j * M_sim data + k)%Z * (sp * sqrt (abs sv))
               * sigma_v p * sqrt_delta).
Proof.
  intros sp sv s e'. subst e'. unfold ll_substep.
  cbn [ens_price ens_volatility]. rewrite !store_same. split; reflexivity.
Qed.

Lemma single_substep_member p data w delta sqrt_delta i j :
  M_sim data = 1%Z ->
  let P := price data (i - 1)%Z in
  let V := volatility data (i - 1)%Z in
  let s := interpolated_sentiment data (i - 1)%Z in
  let e := member_path p data w delta sqrt_delta i j (observed_ensemble data i)
  in
  ens_price e j
  = P + (gamma_p p * (mu_p p - P) * delta
         + W_p w j * (P * sqrt (abs V)) * sqrt_delta)
  /\ ens_volatility e j
     = V + (gamma_v p * (mu_v p + beta_v p * abs s - V) * delta
            + W_v w j * (P * sqrt (abs V)) * sigma_v p * sqrt_delta).
Proof.
  intros HM P V s e. subst e. unfold member_path. rewrite HM.
  change (run (Z.to_nat 1) 0 (ll_substep p data w delta sqrt_delta i j)
            (observed_ensemble data i))
    with (ll_substep p data w delta sqrt_delta i j 0 (observed_ensemble data i)).
  destruct (ll_substep_formula p data w delta sqrt_delta i j 0
              (observed_ensemble data i)) as [Ep Ev].
  rewrite Ep, Ev, HM. cbn [observed_ensemble ens_price ens_volatility].
  replace (j * 1 + 0)%Z with j by lia.
  replace ((i - 1) * 1 + 0)%Z with (i - 1)%Z by lia.
  split; reflexivity.
Qed.

(** C8.  The evaluator reads [x] positionally, and what a call computes
    shows each entry in its role.  In every observation step of a run
    the members are propagated by sub-steps in which [x[0]] is the
    speed and [x[1]] the long-run mean of the price drift, [x[2]] the
    speed and [x[3]] the long-run mean of the volatility drift, [x[4]]
    multiplies the absolute sentiment and [x[5]] scales the volatility
    diffusion, with Wiener increments mixed by the correlation [x[6]].
    With one sub-step per observation the buffers a call without the
    macro leaves are given in closed form. *)
Theorem parameter_vector_order :
  forall (libm : Libm) (header : Header)
         (x0 x1 x2 x3 x4 x5 x6 : double) (rest : list double)
         (data : WrapperSimulatedJoint),
    let x := x0 :: x1 :: x2 :: x3 :: x4 :: x5 :: x6 :: rest in
    let p := {| gamma_p := x0; mu_p := x1; gamma_v := x2; mu_v := x3;
                beta_v := x4; sigma_v := x5; rho_pv := x6 |} in
    let delta := dt data / of_int (M_sim data) in
    unwrap x = Some p
    /\ (forall (k : nat) (w : Wiener) (st' : LoopState) (j : Z),
          run_steps x data (S k) = Some (w, st') ->
          (0 <= j < N_sim data)%Z ->
          let i := Z.of_nat (S k) in
          (forall m, (0 <= m < M_sim data)%Z ->
             W_v w (j * M_sim data + m)%Z
             = random_buffer_volatility data (j * M_sim data + m)%Z
             /\ W_p w (j * M_sim data + m)%Z
                = sqrt (1 - x6 * x6)
                  * random_buffer_price data (j * M_sim data + m)%Z
                  + x6 * random_buffer_volatility data (j * M_sim data + m)%Z)
          /\ same_at (ens st')
               (run (Z.to_nat (M_sim data)) 0
                  (ll_substep p data w delta (sqrt delta) i j)
                  (observed_ensemble data i)) j
          /\ (forall m e,
                let sp := ens_price e j in
                let sv := ens_volatility e j in
                let s :=
                  interpolated_sentiment data ((i - 1) * M_sim data + m)%Z in
                let e' := ll_substep p data w delta (sqrt delta) i j m e in
                ens_price e' j
                = sp + (x0 * (x1 - sp) * delta
                        + W_p w (j * M_sim data + m)%Z * (sp * sqrt (abs sv))
                          * sqrt delta)
                /\ ens_volatility e' j
                   = sv + (x2 * (x3 + x4 * abs s - sv) * delta
                           + W_v w (j * M_sim data + m)%Z
                             * (sp * sqrt (abs sv)) * x5 * sqrt delta)))
    /\ (forall (grad : list double) (v : double)
               (data' : WrapperSimulatedJoint) (j : Z),
          M_sim data = 1%Z ->
          (2 <= N_obs data)%Z ->
          simulated_ll_joint false x grad data = Some (v, data') ->
          (0 <= j < N_sim data)%Z ->
          let P := price data (N_obs data - 2)%Z in
          let V := volatility data (N_obs data - 2)%Z in
          let s := interpolated_sentiment data (N_obs data - 2)%Z in
          let Wv := random_buffer_volatility data j in
          let Wp := sqrt (1 - x6 * x6) * random_buffer_price data j
                    + x6 * random_buffer_volatility data j in
          wiener_volatility data' j = Wv
          /\ wiener_price data' j = Wp
          /\ simulated_price data' j
             = P + (x0 * (x1 - P) * delta
                    + Wp * (P * sqrt (abs V)) * sqrt delta)
          /\ simulated_volatility data' j
             = V + (x2 * (x3 + x4 * abs s - V) * delta
                    + Wv * (P * sqrt (abs V)) * x5 * sqrt delta)).
Proof.
  intros libm header x0 x1 x2 x3 x4 x5 x6 rest data x p delta.
  assert (Hp : unwrap x = Some p) by reflexivity.
  split; [exact Hp|]. split.
  - intros k w st' j Hrun Hj i.
    destruct (run_steps_members x data k w st' p j Hrun Hp Hj)
      as (HM & Hw & Hs).
    split; [|split].
    + intros m Hm. rewrite Hw.
      apply (fill_wiener_run (rho_pv p) data
               (Z.to_nat (N_sim data * M_sim data))
               {| W_p := wiener_price data; W_v := wiener_volatility data |}
               (j * M_sim data + m)%Z).
      nia.
    + exact Hs.
    + intros m e. apply (ll_substep_formula p data w delta (sqrt delta) i j m e).
  - intros grad v data' j HM HN Hcall Hj P V s Wv Wp. subst delta.
    destruct (unguarded_call_last x grad data v data' HN Hcall)
      as (w & st' & Hrun & _ & ->).
    destruct (run_steps_members x data _ w st' p j Hrun Hp Hj)
      as (_ & Hw & [Hsp Hsv]).
    destruct (fill_wiener_run (rho_pv p) data
                (Z.to_nat (N_sim data * M_sim data))
                {| W_p := wiener_price data; W_v := wiener_volatility data |}
                j) as [Ev Ep]; [rewrite HM; lia|].
    rewrite <- Hw in Ev, Ep.
    destruct (single_substep_member p data w (dt data / of_int (M_sim data))
                (sqrt (dt data / of_int (M_sim data)))
                (Z.of_nat (S (Z.to_nat (N_obs data - 2)))) j HM) as [Fp Fv].
    replace (Z.of_nat (S (Z.to_nat (N_obs data - 2))) - 1)%Z
      with (N_obs data - 2)%Z in Fp, Fv by lia.
    cbn [write_back wiener_price wiener_volatility simulated_price
      simulated_volatility].
    rewrite Hsp, Hsv, Fp, Fv, Ev, Ep.
    repeat split.
Qed.

Lemma parameter_vector_order_witness :
  simulated_volatility
    (snd (outcome one_substep
            (@simulated_ll_joint libm_linear header_population false
               [1; 100; 2; 0.25; 0.5; 4; 0.5] [] one_substep))) 1%Z
  = volatility one_substep 1%Z
    + (2 * (0.25 + 0.5 * abs (interpolated_sentiment one_substep 1%Z)
            - volatility one_substep 1%Z)
       * (dt one_substep / of_int (M_sim one_substep))
       + random_buffer_volatility one_substep 1%Z
         * (price one_substep 1%Z * sqrt (abs (volatility one_substep 1%Z)))
         * 4 * sqrt (dt one_substep / of_int (M_sim one_substep))).
Proof.
  pose (o := outcome one_substep
               (@simulated_ll_joint libm_linear header_population false
                  [1; 100; 2; 0.25; 0.5; 4; 0.5] [] one_substep)).
  destruct (parameter_vector_order libm_linear header_population
              1 100 2 0.25 0.5 4 0.5 [] one_substep) as (_ & _ & H).
  destruct (H [] (fst o) (snd o) 1%Z) as (_ & _ & _ & Hv).
  - reflexivity.
  - discriminate.
  - reflexivity.
  - split; [discriminate|reflexivity].
  - exact Hv.
Defined.

End EvaluatorFacts.
